(** * SimpleVectorPlotter: ring orientation, path building, layer registry

    A shallow embedding of [code/3_3_2_2_plot_spatial_data.py].

    The file has two halves.  The first half holds the definitions, each
    one a transcription of the Python method of the same name:

    - the pure geometry helpers [_clockwise], [_order_vertices], [_codes]
      and the vertex/code buffers built by [_plot_polygon];
    - the plotting session as explicit state: the layer registry
      [_graphics] (a Python dict), the two artist lists of the axes
      ([lines], [patches]), the artists themselves in an object store
      (registry and axes hold references to the same objects), and the
      rotating colour palette.

    The second half holds the theorems.

    Coordinates are Python integers (unbounded, exact arithmetic),
    modelled by [Z]: every statement over [point] is a statement about
    rings of integer coordinates.  Rings of float coordinates round in
    binary64 and are transcribed apart, in [Float64].  Rings are handled
    by value where a method only reads them or is handed a list nobody
    else holds; [polygon_path_objects] is [_plot_polygon] over rings as
    list objects, with the in-place changes of [_order_vertices] and the
    arrays of numpy.  Python exceptions are values of [exn]; a method
    that may raise returns a [result]. *)

From Stdlib Require Import ZArith Lia Floats.
From stdpp Require Import base option functions strings gmap list.

Local Open Scope Z_scope.

(* ================================================================== *)
(** * Part I: definitions                                              *)
(* ================================================================== *)

(** ** Exceptions *)

(** The built-in exceptions the modelled methods can raise. *)
Inductive exn : Type :=
  | IndexError      (* [seq[0]] on an empty sequence *)
  | KeyError        (* [d[k]] or [del d[k]] on a missing key *)
  | ValueError      (* [list.remove(x)] with [x] not in the list *)
  | AttributeError. (* a method the object's class does not have *)

Inductive result (A : Type) : Type :=
  | Ok (a : A)
  | Raise (e : exn).
Arguments Ok {A} a.
Arguments Raise {A} e.

#[global] Instance exn_eq_dec : EqDecision exn.
Proof. solve_decision. Defined.

#[global] Instance result_ret : MRet result := λ A a, Ok a.
#[global] Instance result_bind : MBind result := λ A B f m,
  match m with
  | Ok a => f a
  | Raise e => Raise e
  end.

(** Python indexing [l[i]]: a negative index counts from the end, an
    index outside the list raises [IndexError]. *)
Definition py_index {A} (l : list A) (i : Z) : result A :=
  let j := if bool_decide (i < 0) then i + Z.of_nat (length l) else i in
  if bool_decide (j < 0) then Raise IndexError
  else match l !! Z.to_nat j with
       | Some a => Ok a
       | None => Raise IndexError
       end.

(** ** Points and the shoelace sum *)

(** A vertex [(x, y)] whose coordinates are Python ints.  Python ints
    are unbounded and their [+], [-], [*] and comparisons are exact,
    which is the arithmetic of [Z].  The methods take floats as well
    (the coordinates OGR hands over are floats); a float ring goes
    through the same statements with every operation rounded to
    binary64, and what is proved over [point] says nothing about it:
    see [Float64] for the float transcription. *)
Definition point : Type := Z * Z.

(** One turn of the loop of [_clockwise]:
    [total += (x - x1) * (y + y1); x1, y1 = x, y]. *)
Definition clockwise_step (acc : Z * point) (p : point) : Z * point :=
  let '(total, (x1, y1)) := acc in
  let '(x, y) := p in
  (total + (x - x1) * (y + y1), (x, y)).

(** The value of [total] when [_clockwise] reaches its [return]:
    the loop over [data[1:]] followed by the wrap-around term back to
    [data[0]].  [data[0]] raises [IndexError] on an empty list. *)
Definition shoelace_total (data : list point) : result Z :=
  match data with
  | [] => Raise IndexError
  | p0 :: rest =>
      let '(total, (x1, y1)) := fold_left clockwise_step rest (0, p0) in
      let '(x, y) := p0 in
      Ok (total + (x - x1) * (y + y1))
  end.

(** [_clockwise(data)]: [return total > 0]. *)
Definition _clockwise (data : list point) : result bool :=
  total ← shoelace_total data;
  Ok (bool_decide (total > 0)).

(** [_order_vertices(data, clockwise)]:
<<
    self._clockwise(data) != clockwise or data.reverse()
    if data[0] != data[-1]:
        data.append(data[0])
    return data
>>
    [a or b] evaluates [b] only when [a] is false, so [data.reverse()]
    runs exactly when [_clockwise(data) == clockwise].  The method
    changes the list it is given and returns that list; the model
    returns the contents the list has on return. *)
Definition _order_vertices (data : list point) (clockwise : bool)
  : result (list point) :=
  cw ← _clockwise data;
  let data := if bool_decide (cw ≠ clockwise) then data else reverse data in
  first ← py_index data 0;
  final ← py_index data (-1);
  if bool_decide (first ≠ final) then Ok (data ++ [first]) else Ok data.

(** ** Path codes *)

(** [Path.MOVETO] (= 1) and [Path.LINETO] (= 2). *)
Inductive code : Type := MOVETO | LINETO.

#[global] Instance code_eq_dec : EqDecision code.
Proof. solve_decision. Defined.

(** [_codes(data)]:
<<
    codes = np.ones(len(data), dtype=np.int) * Path.LINETO
    codes[0] = Path.MOVETO
>>
    The store at index 0 raises [IndexError] on an array of length 0. *)
Definition _codes (data : list point) : result (list code) :=
  let codes := replicate (length data) LINETO in
  match codes !! 0%nat with
  | Some _ => Ok (<[0%nat := MOVETO]> codes)
  | None => Raise IndexError
  end.

(** The two buffers handed to [Path(vertices, codes)]. *)
Record path : Type := Path { vertices : list point; codes : list code }.

(** The pure part of [_plot_polygon(data)]:
<<
    outer = self._order_vertices(data[0], True)
    inner = [self._order_vertices(d, False) for d in data[1:]]
    vertices = np.concatenate([np.asarray(outer)] + [np.asarray(i) for i in inner])
    codes = np.concatenate([self._codes(outer)] + [self._codes(i) for i in inner])
>>
    The rings are taken by value.  This is what the code computes when
    every ring of [data] is its own list object (as [_get_polygon_coords]
    builds them), so that the in-place [reverse]/[append] of one ring is
    not seen through another, and when every coordinate fits the 64-bit
    integers of numpy, so that [np.asarray] and [np.concatenate] keep
    the numbers as they are.  [polygon_path_objects] below transcribes
    the same statements over list objects and arrays, without these two
    assumptions. *)
Definition polygon_path (data : list (list point)) : result path :=
  match data with
  | [] => Raise IndexError
  | d0 :: ds =>
      outer ← _order_vertices d0 true;
      inner ← mapM (λ d, _order_vertices d false) ds;
      outer_codes ← _codes outer;
      inner_codes ← mapM _codes inner;
      Ok (Path (concat (outer :: inner)) (concat (outer_codes :: inner_codes)))
  end.

(** ** Artists and the object store *)

(** The three artist classes the plotter tells apart
    ([mpl.lines.Line2D], [mpl.patches.Polygon], [mpl.patches.PathPatch]).
    [plt.plot] creates [Line2D] artists and [_plot_polygon] creates
    [PathPatch] artists; nothing in the file creates another class, so
    the [else: raise RuntimeError] arm of [hide] and [show] has no input
    and is not part of the model. *)
Inductive artist_class : Type := Line2D | Polygon | PathPatch.

#[global] Instance artist_class_eq_dec : EqDecision artist_class.
Proof. solve_decision. Defined.

(** What an artist draws.  A [Line2D] carries its x and y data, a
    [Polygon] its vertex list, a [PathPatch] its [Path]. *)
Inductive shape : Type :=
  | LineShape (xdata ydata : list Z)
  | PolygonShape (xy : list point)
  | PathShape (p : path).

(** The drawing properties of an artist (colour, line width, marker,
    fill, ...), keyed by property name. *)
Abbreviation style := (gmap string string).

Record artist : Type := Artist { artist_shape : shape; artist_style : style }.

(** [type(graphic)]. *)
Definition type (a : artist) : artist_class :=
  match artist_shape a with
  | LineShape _ _ => Line2D
  | PolygonShape _ => Polygon
  | PathShape _ => PathPatch
  end.

(** [graphic.get_xdata()]: a method of [Line2D] only; the patch classes
    do not have it. *)
Definition get_xdata (a : artist) : result (list Z) :=
  match artist_shape a with
  | LineShape xdata _ => Ok xdata
  | _ => Raise AttributeError
  end.

(** [_same_type(graphic1, graphic2)]:
<<
    if type(graphic1) is not type(graphic2):
        return False
    if type(graphic1) is mpl.patches.Polygon: ## huh?
        return True
    if len(graphic1.get_xdata()) == len(graphic2.get_xdata()):
        return True
    return len(graphic1.get_xdata()) > 1 and len(graphic2.get_xdata()) > 1
>> *)
Definition _same_type (graphic1 graphic2 : artist) : result bool :=
  if bool_decide (type graphic1 ≠ type graphic2) then Ok false
  else if bool_decide (type graphic1 = Polygon) then Ok true
  else
    x1 ← get_xdata graphic1;
    x2 ← get_xdata graphic2;
    if bool_decide (length x1 = length x2) then Ok true
    else
      x1 ← get_xdata graphic1;
      if bool_decide (1 < length x1)%nat then
        x2 ← get_xdata graphic2;
        Ok (bool_decide (1 < length x2)%nat)
      else Ok false.

(** ** Layer names *)

(** A key of the registry: the string the caller chose, or the integer
    the plotter assigns to an unnamed layer. *)
Inductive name : Type :=
  | NStr (s : string)
  | NInt (n : nat).

#[global] Instance name_eq_dec : EqDecision name.
Proof. solve_decision. Defined.

#[global] Instance name_countable : Countable name.
Proof.
  refine (inj_countable'
            (λ n, match n with NStr s => inl s | NInt k => inr k end)
            (λ x, match x with inl s => NStr s | inr k => NInt k end) _).
  by intros [].
Defined.

(** Python truth value of a name: [''] and [0] are false. *)
Definition truthy (n : name) : bool :=
  match n with
  | NStr s => bool_decide (s ≠ "")
  | NInt k => bool_decide (k ≠ 0%nat)
  end.

(** ** The plotting session *)

(** Artists are Python objects: the registry and the axes hold
    references to the same objects, and [update_from] mutates an object
    that both can see.  A reference is a number; [objects] maps it to the
    object's current contents and [next_ref] is the next unused one.
    [plt.axes()] is the one axes of figure 1 throughout a session, as
    in the matplotlib releases whose [lines] and [patches] are plain
    Python lists. *)
Abbreviation ref := nat.

(** One entry of [rcParams['axes.prop_cycle']], a dict such as
    [{'color': '#1f77b4'}]. *)
Abbreviation cycle_entry := (gmap string string).

Record plotter : Type := Plotter {
  _graphics : gmap name (list ref);   (* self._graphics *)
  lines : list ref;                   (* plt.axes().lines *)
  patches : list ref;                 (* plt.axes().patches *)
  objects : ref → artist;
  next_ref : ref;
  colors : list cycle_entry;          (* self.colors *)
  current_color : Z                   (* self.current_color *)
}.

Definition with_graphics (f : gmap name (list ref) → gmap name (list ref))
    (s : plotter) : plotter :=
  Plotter (f (_graphics s)) (lines s) (patches s) (objects s) (next_ref s)
          (colors s) (current_color s).
Definition with_lines (f : list ref → list ref) (s : plotter) : plotter :=
  Plotter (_graphics s) (f (lines s)) (patches s) (objects s) (next_ref s)
          (colors s) (current_color s).
Definition with_patches (f : list ref → list ref) (s : plotter) : plotter :=
  Plotter (_graphics s) (lines s) (f (patches s)) (objects s) (next_ref s)
          (colors s) (current_color s).
Definition with_objects (f : (ref → artist) → ref → artist) (s : plotter)
  : plotter :=
  Plotter (_graphics s) (lines s) (patches s) (f (objects s)) (next_ref s)
          (colors s) (current_color s).
Definition with_next_ref (n : ref) (s : plotter) : plotter :=
  Plotter (_graphics s) (lines s) (patches s) (objects s) n
          (colors s) (current_color s).
Definition with_current_color (c : Z) (s : plotter) : plotter :=
  Plotter (_graphics s) (lines s) (patches s) (objects s) (next_ref s)
          (colors s) c.

(** A method of the session: it reads and mutates the state and either
    returns a value or raises.  What it mutated before raising stays
    mutated. *)
Definition M (A : Type) : Type := plotter → result A * plotter.

#[global] Instance M_ret : MRet M := λ A a s, (Ok a, s).
#[global] Instance M_bind : MBind M := λ A B f m s,
  match m s with
  | (Ok a, s') => f a s'
  | (Raise e, s') => (Raise e, s')
  end.

Definition raise {A} (e : exn) : M A := λ s, (Raise e, s).
Definition lift {A} (r : result A) : M A := λ s, (r, s).
Definition get {A} (f : plotter → A) : M A := λ s, (Ok (f s), s).
Definition modify (f : plotter → plotter) : M unit := λ s, (Ok (), f s).

(** [try: body except (caught): handler]. *)
Definition try_except {A} (body : M A) (caught : exn → bool) (handler : M A)
  : M A := λ s,
  match body s with
  | (Raise e, s') => if caught e then handler s' else (Raise e, s')
  | r => r
  end.

(** [for x in l: body(x)]. *)
Fixpoint for_each {A} (l : list A) (body : A → M unit) : M unit :=
  match l with
  | [] => mret ()
  | x :: l' => body x ≫= λ _, for_each l' body
  end.

(** ** The axes: attaching and detaching artists *)

(** [l.remove(x)] on a Python list: drops the first element equal to
    [x]; [None] stands for the [ValueError] raised when there is none.
    Artists define no [__eq__], so equality is object identity. *)
Fixpoint list_remove (x : ref) (l : list ref) : option (list ref) :=
  match l with
  | [] => None
  | y :: l' => if decide (x = y) then Some l' else (y ::.) <$> list_remove x l'
  end.

(** [plt.axes().lines.remove(graphic)]. *)
Definition lines_remove (graphic : ref) : M unit := λ s,
  match list_remove graphic (lines s) with
  | Some l => (Ok (), with_lines (λ _, l) s)
  | None => (Raise ValueError, s)
  end.

(** [plt.axes().patches.remove(graphic)]. *)
Definition patches_remove (graphic : ref) : M unit := λ s,
  match list_remove graphic (patches s) with
  | Some l => (Ok (), with_patches (λ _, l) s)
  | None => (Raise ValueError, s)
  end.

(** [plt.axes().add_line(graphic)]: the artist is appended to the axes'
    list of lines; the list takes an artist that is in it already. *)
Definition add_line (graphic : ref) : M unit :=
  modify (with_lines (λ l, l ++ [graphic])).

(** [plt.axes().add_patch(graphic)]: the artist is appended to the axes'
    list of patches; the list takes an artist that is in it already. *)
Definition add_patch (graphic : ref) : M unit :=
  modify (with_patches (λ l, l ++ [graphic])).

(** [graphic.update_from(other)]: copies the drawing properties of
    [other] onto [graphic]; the data of [graphic] stay. *)
Definition update_from (graphic other : ref) : M unit :=
  modify (with_objects (λ o,
    <[graphic := Artist (artist_shape (o graphic)) (artist_style (o other))]> o)).

(** ** The layer registry *)

(** [self._graphics[name]]. *)
Definition graphics_get (name : name) : M (list ref) := λ s,
  match _graphics s !! name with
  | Some graphics => (Ok graphics, s)
  | None => (Raise KeyError, s)
  end.

(** [del self._graphics[name]]. *)
Definition graphics_del (name : name) : M unit := λ s,
  match _graphics s !! name with
  | Some _ => (Ok (), with_graphics (delete name) s)
  | None => (Raise KeyError, s)
  end.

(** The class test shared by [hide] and [show]:
    [type(graphics[0])], then one loop over [graphics] for [Line2D] and
    another for [Polygon] or [PathPatch]. *)
Definition by_class (graphics : list ref)
    (on_line on_patch : ref → M unit) : M unit :=
  g0 ← lift (py_index graphics 0);
  graphic_type ← get (λ s, type (objects s g0));
  match graphic_type with
  | Line2D => for_each graphics on_line
  | Polygon | PathPatch => for_each graphics on_patch
  end.

(** [hide(name)]:
<<
    try:
        graphics = self._graphics[name]
        graphic_type = type(graphics[0])
        if graphic_type is mpl.lines.Line2D:
            for graphic in graphics:
                plt.axes().lines.remove(graphic)
        elif graphic_type is mpl.patches.Polygon or graphic_type is mpl.patches.PathPatch:
            for graphic in graphics:
                plt.axes().patches.remove(graphic)
        else:
            raise RuntimeError('{} not supported'.format(graphic_type))
    except (KeyError, ValueError):
        pass
>> *)
Definition hide (name : name) : M unit :=
  try_except
    (graphics ← graphics_get name;
     by_class graphics lines_remove patches_remove)
    (λ e, bool_decide (e = KeyError ∨ e = ValueError))
    (mret ()).

(** [show(name)]: as [hide], with [add_line] and [add_patch] in the
    loops and [except KeyError: pass]. *)
Definition show (name : name) : M unit :=
  try_except
    (graphics ← graphics_get name;
     by_class graphics add_line add_patch)
    (λ e, bool_decide (e = KeyError))
    (mret ()).

(** [remove(name)]:
<<
    try:
        self.hide(name)
        del self._graphics[name]
    except KeyError:
        pass
>> *)
Definition remove (name : name) : M unit :=
  try_except
    (hide name ≫= λ _, graphics_del name)
    (λ e, bool_decide (e = KeyError))
    (mret ()).

(** [_set_graphics(graphics, name, has_symbol)]:
<<
    name = name or len(self._graphics)
    if name in self._graphics:
        self.hide(name)
        if not has_symbol and self._same_type(graphics[0], self._graphics[name][0]):
            styled_graphic = self._graphics[name][0]
            for graphic in graphics:
                graphic.update_from(styled_graphic)
    self._graphics[name] = graphics
    plt.axis('equal')
>> *)
Definition _set_graphics (graphics : list ref) (name : name)
    (has_symbol : bool) : M unit :=
  n ← get (λ s, size (_graphics s));
  let name := if truthy name then name else NInt n in
  present ← get (λ s, bool_decide (is_Some (_graphics s !! name)));
  (if present : bool then
     hide name ≫= λ _,
     same ← (if negb has_symbol then
               g0 ← lift (py_index graphics 0);
               old ← graphics_get name;
               o0 ← lift (py_index old 0);
               a ← get (λ s, objects s g0);
               b ← get (λ s, objects s o0);
               lift (_same_type a b)
             else mret false);
     if same : bool then
       old ← graphics_get name;
       styled_graphic ← lift (py_index old 0);
       for_each graphics (λ graphic, update_from graphic styled_graphic)
     else mret ()
   else mret ()) ≫= λ _,
  modify (with_graphics (<[name := graphics]>)).

(** ** The colour rotation *)

(** [_next_color_new()]:
<<
    self.current_color += 1
    if self.current_color >= len(self.colors):
        self.current_color = 0
    return self.colors[self.current_color]['color']
>> *)
Definition _next_color_new : M string :=
  modify (λ s, with_current_color (current_color s + 1) s) ≫= λ _,
  wrap ← get (λ s, bool_decide (current_color s >= Z.of_nat (length (colors s))));
  (if wrap : bool then modify (with_current_color 0) else mret ()) ≫= λ _,
  i ← get current_color;
  palette ← get colors;
  entry ← lift (py_index palette i);
  match entry !! "color" with
  | Some c => mret c
  | None => raise KeyError
  end.

(** ** Drawing a polygon *)

(** [_plot_polygon(data, **kwargs)]: builds the path, creates
    [PathPatch(Path(vertices, codes), **kwargs)], adds it to the axes
    and returns [[patch]]. *)
Definition _plot_polygon (data : list (list point)) (kwargs : style)
  : M (list ref) :=
  p ← lift (polygon_path data);
  patch ← get next_ref;
  modify (with_next_ref (S patch)) ≫= λ _,
  modify (with_objects (<[patch := Artist (PathShape p) kwargs]>)) ≫= λ _,
  add_patch patch ≫= λ _,
  mret [patch].

(** [plot_polygon(data, color='', name='', **kwargs)]:
<<
    has_symbol = bool(color or kwargs)
    if not ('facecolor' in kwargs or 'fc' in kwargs):
        kwargs['fc'] = color or self._next_color()
    graphics = self._plot_polygon(data, **kwargs)
    self._set_graphics(graphics, name, has_symbol)
>> *)
Definition plot_polygon (data : list (list point)) (color : string)
    (name : string) (kwargs : style) : M unit :=
  let has_symbol := bool_decide (color ≠ "" ∨ kwargs ≠ ∅) in
  kwargs ← (if bool_decide (is_Some (kwargs !! "facecolor")
                            ∨ is_Some (kwargs !! "fc"))
            then mret kwargs
            else
              fc ← (if bool_decide (color ≠ "") then mret color
                    else _next_color_new);
              mret (<["fc" := fc]> kwargs));
  graphics ← _plot_polygon data kwargs;
  _set_graphics graphics (NStr name) has_symbol.

(** [clear()]: [plt.cla()] empties the axes, then [self._graphics = {}]. *)
Definition clear : M unit :=
  modify (with_lines (λ _, [])) ≫= λ _,
  modify (with_patches (λ _, [])) ≫= λ _,
  modify (with_graphics (λ _, ∅)).

(** The session object after [__init__] on an empty figure, for
    matplotlib 1.5 or later, where [_init_colors] runs
<<
    self.colors = list(mpl.rcParams['axes.prop_cycle'])
    self.current_color = -1
    self._next_color = self._next_color_new
>>
    [prop_cycle] is the value of [rcParams['axes.prop_cycle']]. *)
Definition SimpleVectorPlotter (prop_cycle : list cycle_entry) : plotter :=
  {| _graphics := ∅;
     lines := [];
     patches := [];
     objects := λ _, Artist (LineShape [] []) ∅;
     next_ref := 0%nat;
     colors := prop_cycle;
     current_color := -1 |}.

(** [k] successive calls of [self._next_color()], the colours returned
    in call order. *)
Fixpoint next_colors (k : nat) : M (list string) :=
  match k with
  | O => mret []
  | S k' => c ← _next_color_new; cs ← next_colors k'; mret (c :: cs)
  end.

(** ** Vocabulary of the statements *)

(** The term one edge [p -> q] adds to [total] in [_clockwise]. *)
Definition edge (p q : point) : Z := (q.1 - p.1) * (q.2 + p.2).

(** The sum of the edge terms along an open chain of points. *)
Fixpoint path_sum (l : list point) : Z :=
  match l with
  | p :: l' =>
      match l' with
      | q :: _ => edge p q + path_sum l'
      | [] => 0
      end
  | [] => 0
  end.

(** The shoelace sum of a ring: the chain closed back to its first point. *)
Definition ring_sum (l : list point) : Z :=
  match l with
  | p :: _ => path_sum (l ++ [p])
  | [] => 0
  end.

Arguments ring_sum : simpl never.

(** A ring with its first point repeated at the end when it is not
    already there. *)
Definition closed (l : list point) : list point :=
  match head l, last l with
  | Some a, Some b => if decide (a = b) then l else l ++ [a]
  | _, _ => l
  end.

(** The codes one ring contributes to a path: one [MOVETO], then a
    [LINETO] for each further vertex. *)
Definition ring_codes (r : list point) : list code :=
  MOVETO :: replicate (length r - 1) LINETO.
Arguments ring_codes : simpl never.

(** All artists attached to the axes. *)
Definition canvas (s : plotter) : list ref := lines s ++ patches s.

(** How often an artist is attached to the axes. *)
Definition attached (s : plotter) (g : ref) : nat :=
  count_occ Nat.eq_dec (canvas s) g.

(** The part of the session the loops of [hide] leave alone. *)
Definition same_registry (s s' : plotter) : Prop :=
  _graphics s' = _graphics s ∧ objects s' = objects s.

(** [cs] lists the colours of the palette [P], entry by entry. *)
Definition has_colors (P : list cycle_entry) (cs : list string) : Prop :=
  Forall2 (λ (e : cycle_entry) c, e !! "color" = Some c) P cs.

Definition is_line (s : plotter) (g : ref) : Prop := type (objects s g) = Line2D.
Definition is_patch (s : plotter) (g : ref) : Prop := type (objects s g) ≠ Line2D.

(** ** Sample sessions *)

(** A session with one layer, ["sites"], that holds a marker (a
    [Line2D]) and a filled path (a [PathPatch]), as plotting a geometry
    collection of a point and a polygon leaves it; both are attached. *)
Definition mixed_session : plotter :=
  {| _graphics := {[ NStr "sites" := [0; 1]%nat ]};
     lines := [0%nat];
     patches := [1%nat];
     objects :=
       <[0%nat := Artist (LineShape [2] [3]) {[ "color" := "b" ]}]>
       (<[1%nat := Artist (PathShape
                             (Path [(0, 0); (4, 0); (0, 4); (0, 0)]
                                   [MOVETO; LINETO; LINETO; LINETO]))
                          {[ "fc" := "g" ]}]>
        (λ _, Artist (LineShape [] []) ∅));
     next_ref := 2%nat;
     colors := [];
     current_color := -1 |}.

(** A session with one layer, ["none"], that holds no primitive, as
    plotting a multipolygon without polygons leaves it. *)
Definition empty_layer_session : plotter :=
  {| _graphics := {[ NStr "none" := [] ]};
     lines := [];
     patches := [];
     objects := λ _, Artist (LineShape [] []) ∅;
     next_ref := 0%nat;
     colors := [];
     current_color := -1 |}.

(** ** Drawing several polygons *)

(** The loop of [_plot_multipolygon]:
<<
    for poly in data:
        graphics += self._plot_polygon(poly, **kwargs)
>> *)
Fixpoint multipolygon_loop (data : list (list (list point))) (kwargs : style)
    (graphics : list ref) : M (list ref) :=
  match data with
  | [] => mret graphics
  | poly :: data' =>
      patch ← _plot_polygon poly kwargs;
      multipolygon_loop data' kwargs (graphics ++ patch)
  end.

(** [_plot_multipolygon(data, **kwargs)]: [graphics = []], the loop,
    [return graphics]. *)
Definition _plot_multipolygon (data : list (list (list point)))
    (kwargs : style) : M (list ref) :=
  multipolygon_loop data kwargs [].

(** [plot_multipolygon(data, color='', name='', **kwargs)]:
<<
    has_symbol = bool(color or kwargs)
    if not ('facecolor' in kwargs or 'fc' in kwargs):
        kwargs['fc'] = color or self._next_color()
    graphics = self._plot_multipolygon(data, **kwargs)
    self._set_graphics(graphics, name, has_symbol)
>> *)
Definition plot_multipolygon (data : list (list (list point)))
    (color : string) (name : string) (kwargs : style) : M unit :=
  let has_symbol := bool_decide (color ≠ "" ∨ kwargs ≠ ∅) in
  kwargs ← (if bool_decide (is_Some (kwargs !! "facecolor")
                            ∨ is_Some (kwargs !! "fc"))
            then mret kwargs
            else
              fc ← (if bool_decide (color ≠ "") then mret color
                    else _next_color_new);
              mret (<["fc" := fc]> kwargs));
  graphics ← _plot_multipolygon data kwargs;
  _set_graphics graphics (NStr name) has_symbol.

(** ** Polygon geometries of the OGR layer *)

(** A coordinate tuple as [GetPoints()] returns it: [(x, y)] or
    [(x, y, z)]. *)
Record ogr_coords : Type := Coords { ogr_x : Z; ogr_y : Z; ogr_z : option Z }.

(** The OGR geometries whose type is in [polygon_types]: a polygon is
    its rings (geometry name ['POLYGON']), a multipolygon its polygons
    (['MULTIPOLYGON']). *)
Inductive polygon_geometry : Type :=
  | PolygonGeometry (rings : list (list ogr_coords))
  | MultiPolygonGeometry (polygons : list (list (list ogr_coords))).

(** [_get_line_coords(geom)]: [[coords[:2] for coords in geom.GetPoints()]]. *)
Definition _get_line_coords (ring : list ogr_coords) : list point :=
  (λ coords, (ogr_x coords, ogr_y coords)) <$> ring.

(** [_get_polygon_coords(geom)]: the line coordinates of each
    [GetGeometryRef(i)], in order. *)
Definition _get_polygon_coords (rings : list (list ogr_coords))
  : list (list point) :=
  _get_line_coords <$> rings.

(** [_get_multipolygon_coords(geom)]: the polygon coordinates of each
    [GetGeometryRef(i)], in order. *)
Definition _get_multipolygon_coords (polygons : list (list (list ogr_coords)))
  : list (list (list point)) :=
  _get_polygon_coords <$> polygons.

(** [_kwargs_has_color(self, **kwargs)]:
    [return 'fc' in kwargs or 'facecolor' in kwargs]. *)
Definition _kwargs_has_color (kwargs : style) : bool :=
  bool_decide (is_Some (kwargs !! "fc") ∨ is_Some (kwargs !! "facecolor")).

(** [_plot_geom(geom, symbol, **kwargs)], the arms for the geometry
    names ['POLYGON'] and ['MULTIPOLYGON']. *)
Definition _plot_geom (geom : polygon_geometry) (symbol : string)
    (kwargs : style) : M (list ref) :=
  match geom with
  | PolygonGeometry rings =>
      _plot_polygon (_get_polygon_coords rings) kwargs
  | MultiPolygonGeometry polygons =>
      _plot_multipolygon (_get_multipolygon_coords polygons) kwargs
  end.

(** [plot_geom(geom, symbol='', name='', **kwargs)] on a geometry whose
    type is in [polygon_types] (so in neither [point_types] nor
    [line_types], and [symbol] is left as given):
<<
    if geom_type in polygon_types and not self._kwargs_has_color( **kwargs):
        kwargs['fc'] = symbol or self._next_color()
    graphics = self._plot_geom(geom, symbol, **kwargs)
    self._set_graphics(graphics, name, symbol or kwargs)
>>
    The last argument of [_set_graphics] is read after [kwargs] has been
    given its ['fc']. *)
Definition plot_geom (geom : polygon_geometry) (symbol : string)
    (name : string) (kwargs : style) : M unit :=
  kwargs ← (if negb (_kwargs_has_color kwargs)
            then
              fc ← (if bool_decide (symbol ≠ "") then mret symbol
                    else _next_color_new);
              mret (<["fc" := fc]> kwargs)
            else mret kwargs);
  graphics ← _plot_geom geom symbol kwargs;
  _set_graphics graphics (NStr name)
                (bool_decide (symbol ≠ "" ∨ kwargs ≠ ∅)).

(** ** Vocabulary of the further statements *)

(** A point moved by [(dx, dy)]. *)
Definition shift (dx dy : Z) (p : point) : point := (p.1 + dx, p.2 + dy).

(** The cross product term of one edge in the surveyor's shoelace
    formula, [x1 * y2 - x2 * y1]. *)
Definition cross (p q : point) : Z := p.1 * q.2 - q.1 * p.2.

(** The sum of the cross product terms along an open chain. *)
Fixpoint cross_path (l : list point) : Z :=
  match l with
  | p :: l' =>
      match l' with
      | q :: _ => cross p q + cross_path l'
      | [] => 0
      end
  | [] => 0
  end.

(** Twice the signed area of a ring by the shoelace formula: positive
    for a counter-clockwise ring. *)
Definition twice_area (l : list point) : Z :=
  match l with
  | p :: _ => cross_path (l ++ [p])
  | [] => 0
  end.
Arguments twice_area : simpl never.

(** The part of the session that drawing and the registry leave alone:
    the palette and its cursor. *)
Definition same_palette (s s' : plotter) : Prop :=
  colors s' = colors s ∧ current_color s' = current_color s.

(** Two sessions that differ in nothing but the artists attached to the
    axes. *)
Definition only_axes_differ (s s' : plotter) : Prop :=
  _graphics s' = _graphics s ∧ objects s' = objects s ∧
  next_ref s' = next_ref s ∧ same_palette s s'.

(** ** Rings as list objects, vertex buffers as arrays *)

(** The rings handed to [_plot_polygon] are Python lists.
    [_order_vertices] changes the list it is given ([data.reverse()],
    [data.append(data[0])]) and returns that same list, so two entries
    of [data] that are one list see each other's changes.  A ring is a
    reference, and [ring_objects] maps a reference to the current
    contents of the list. *)
Abbreviation ring_ref := nat.
Abbreviation ring_objects := (nat → list point).



(** The range of [np.int64]. *)
Definition int64 (z : Z) : Prop := - 2 ^ 63 ≤ z < 2 ^ 63.

Definition int64_point (p : point) : Prop := int64 p.1 ∧ int64 p.2.

#[global] Instance int64_point_dec p : Decision (int64_point p).
Proof. unfold int64_point, int64. apply _. Defined.






(** ** Rings of float coordinates *)

(** [_clockwise] and [_order_vertices] on rings whose coordinates are
    Python floats, that is IEEE 754 binary64 numbers: the same
    statements as above with [+], [-], [*] rounded to nearest even and
    [>], [==] as IEEE has them.  [total] starts as the int [0], and
    [0 + t] is [t] converted, so the first sum is the float sum with
    [0.0].  The comparison of two tuples compares the coordinates
    with [==]; Python first compares the coordinate objects by
    identity, which tells a difference for NaN only, and the rings
    considered here hold finite numbers. *)
Module Float64.

Definition point : Type := float * float.

Definition clockwise_step (acc : float * point) (p : point) : float * point :=
  let '(total, (x1, y1)) := acc in
  let '(x, y) := p in
  ((total + (x - x1) * (y + y1))%float, (x, y)).

Definition shoelace_total (data : list point) : result float :=
  match data with
  | [] => Raise IndexError
  | p0 :: rest =>
      let '(total, (x1, y1)) := fold_left clockwise_step rest (0%float, p0) in
      let '(x, y) := p0 in
      Ok (total + (x - x1) * (y + y1))%float
  end.

(** [return total > 0]. *)
Definition _clockwise (data : list point) : result bool :=
  total ← shoelace_total data;
  Ok (0 <? total)%float.

(** [p != q] on two coordinate pairs. *)
Definition point_ne (p q : point) : bool :=
  negb ((p.1 =? q.1)%float && (p.2 =? q.2)%float).

Definition _order_vertices (data : list point) (clockwise : bool)
  : result (list point) :=
  cw ← _clockwise data;
  let data := if bool_decide (cw ≠ clockwise) then data else reverse data in
  first ← py_index data 0;
  final ← py_index data (-1);
  if point_ne first final then Ok (data ++ [first]) else Ok data.

(** A quadrilateral and the ring [_order_vertices] makes of it with the
    flag set; the numbers are 0.5, 1.5, 3.5, 10.5, 1.6, 4.8, 0.2, 0.6. *)
Definition sample_ring : list point :=
  [(0x1p-1, 0x1.8p+0); (0x1.cp+1, 0x1.5p+3);
   (0x1.999999999999ap+0, 0x1.3333333333333p+2);
   (0x1.999999999999ap-3, 0x1.3333333333333p-1)]%float.

Definition sample_ring_ordered : list point :=
  [(0x1.999999999999ap-3, 0x1.3333333333333p-1);
   (0x1.999999999999ap+0, 0x1.3333333333333p+2);
   (0x1.cp+1, 0x1.5p+3); (0x1p-1, 0x1.8p+0);
   (0x1.999999999999ap-3, 0x1.3333333333333p-1)]%float.

Definition sample_ring_ordered_twice : list point :=
  [(0x1.999999999999ap-3, 0x1.3333333333333p-1);
   (0x1p-1, 0x1.8p+0); (0x1.cp+1, 0x1.5p+3);
   (0x1.999999999999ap+0, 0x1.3333333333333p+2);
   (0x1.999999999999ap-3, 0x1.3333333333333p-1)]%float.

(** A ring with the numbers 0, 1, -1 and 2^53: listed forwards its
    total is -1, listed backwards 0. *)
Definition wide_ring : list point :=
  [(0, 0x1p+53); (-1, 0x1p+53); (1, 0); (0, 1)]%float.

End Float64.

(* ================================================================== *)
(** * Part II: theorems                                                *)
(* ================================================================== *)

(** ** Python indexing *)

Lemma py_index_first {A} (l : list A) :
  py_index l 0 = match head l with Some a => Ok a | None => Raise IndexError end.
Proof. by destruct l. Qed.

Lemma py_index_last {A} (l : list A) :
  py_index l (-1) = match last l with Some a => Ok a | None => Raise IndexError end.
Proof.
  unfold py_index. rewrite last_lookup.
  rewrite (bool_decide_eq_true_2 (-1 < 0)) by lia.
  destruct l as [|a l]; [done|].
  rewrite bool_decide_eq_false_2 by (simpl length; lia).
  replace (Z.to_nat (-1 + Z.of_nat (length (a :: l)))) with (pred (length (a :: l)))
    by (simpl length; lia).
  done.
Qed.

Lemma py_index_nonneg {A} (l : list A) (i : Z) :
  0 <= i →
  py_index l i =
  match l !! Z.to_nat i with Some a => Ok a | None => Raise IndexError end.
Proof.
  intros Hi. unfold py_index.
  rewrite (bool_decide_eq_false_2 (i < 0)) by lia.
  by rewrite (bool_decide_eq_false_2 (i < 0)) by lia.
Qed.

(** ** The shoelace sum *)

Section shoelace.
Implicit Types (p q : point) (l : list point).

Lemma edge_antisym p q : edge q p = - edge p q.
Proof. unfold edge. lia. Qed.

Lemma edge_refl p : edge p p = 0.
Proof. unfold edge. lia. Qed.

Lemma path_sum_snoc l p q :
  path_sum (l ++ [p; q]) = path_sum (l ++ [p]) + edge p q.
Proof.
  induction l as [|a l IH]; simpl; [lia|].
  destruct l as [|b l]; simpl in *; lia.
Qed.

Lemma path_sum_reverse l : path_sum (reverse l) = - path_sum l.
Proof.
  induction l as [|a l IH]; [done|].
  rewrite reverse_cons. destruct l as [|b l]; [done|].
  rewrite reverse_cons, <- (assoc_L (++)). simpl app at 2.
  rewrite path_sum_snoc, <- reverse_cons, IH.
  change (path_sum (a :: b :: l)) with (edge a b + path_sum (b :: l)).
  rewrite (edge_antisym a b). lia.
Qed.

(** The loop of [_clockwise] adds up the chain it walks and ends on
    the chain's last point. *)
Lemma clockwise_loop l total p :
  fold_left clockwise_step l (total, p) =
  (total + path_sum (p :: l), default p (last l)).
Proof.
  revert total p. induction l as [|q l IH]; intros total p.
  - simpl. f_equal. lia.
  - simpl fold_left. destruct p as [x1 y1], q as [x y]. simpl clockwise_step.
    rewrite IH. f_equal.
    + change (path_sum ((x1, y1) :: (x, y) :: l))
        with (edge (x1, y1) (x, y) + path_sum ((x, y) :: l)).
      unfold edge. simpl. lia.
    + rewrite last_cons. by destruct (last l).
Qed.

Lemma shoelace_total_cons p l :
  shoelace_total (p :: l) = Ok (ring_sum (p :: l)).
Proof.
  unfold shoelace_total, ring_sum. rewrite clockwise_loop.
  destruct (default p (last l)) as [x1 y1] eqn:Hlast, p as [x y].
  f_equal.
  destruct (last l) as [q|] eqn:Hq.
  - apply last_Some in Hq as [l' ->]. simpl in Hlast. subst q.
    change ((x, y) :: l' ++ [(x1, y1)]) with (((x, y) :: l') ++ [(x1, y1)]).
    rewrite <- (assoc_L (++)). simpl app at 3.
    rewrite path_sum_snoc. unfold edge. simpl fst. simpl snd.
    by rewrite Z.add_0_l.
  - apply last_None in Hq as ->. simpl in Hlast. inversion Hlast; subst.
    simpl. unfold edge. simpl. lia.
Qed.

Lemma ring_sum_snoc l q p :
  ring_sum (p :: l ++ [q]) = path_sum (p :: l ++ [q]) + edge q p.
Proof.
  unfold ring_sum.
  change ((p :: l ++ [q]) ++ [p]) with (p :: (l ++ [q]) ++ [p]).
  rewrite <- (assoc_L (++)). simpl app at 2.
  change (p :: l ++ [q; p]) with ((p :: l) ++ [q; p]).
  by rewrite path_sum_snoc.
Qed.

Lemma ring_sum_reverse l : ring_sum (reverse l) = - ring_sum l.
Proof.
  destruct l as [|p l]; [done|].
  destruct (reverse l) as [|q t] eqn:Hrev.
  - apply (f_equal reverse) in Hrev. rewrite reverse_involutive in Hrev.
    subst l. unfold ring_sum. simpl. rewrite edge_refl. lia.
  - assert (l = reverse t ++ [q]) as Hl.
    { rewrite <- reverse_cons, <- Hrev. by rewrite reverse_involutive. }
    rewrite reverse_cons, Hrev. simpl app.
    rewrite ring_sum_snoc.
    change (q :: t ++ [p]) with ((q :: t) ++ [p]).
    rewrite <- Hrev, <- reverse_cons, path_sum_reverse.
    rewrite Hl at 2. rewrite ring_sum_snoc, <- Hl.
    rewrite (edge_antisym q p). lia.
Qed.

Lemma ring_sum_snoc_first p l :
  ring_sum ((p :: l) ++ [p]) = ring_sum (p :: l).
Proof.
  simpl app. rewrite ring_sum_snoc. unfold ring_sum.
  rewrite edge_refl. simpl app. lia.
Qed.

Lemma ring_sum_closed l : ring_sum (closed l) = ring_sum l.
Proof.
  unfold closed. destruct l as [|p l]; [done|].
  change (head (p :: l)) with (Some p).
  destruct (last (p :: l)); [|done].
  destruct (decide _); [done|]. apply ring_sum_snoc_first.
Qed.
End shoelace.

(** ** Ring orientation: [_clockwise] and [_order_vertices] *)

Section order_vertices.
Implicit Types (p : point) (l r : list point) (w : bool).

Lemma clockwise_cons p l :
  _clockwise (p :: l) = Ok (bool_decide (ring_sum (p :: l) > 0)).
Proof. unfold _clockwise. by rewrite shoelace_total_cons. Qed.

Lemma closed_nonempty l : l ≠ [] → closed l ≠ [].
Proof.
  unfold closed. destruct l as [|p l]; [done|]. intros _.
  change (head (p :: l)) with (Some p).
  destruct (last (p :: l)); [|done]. by destruct (decide _).
Qed.

Lemma closed_fixed l : head l = last l → closed l = l.
Proof.
  unfold closed. intros <-. destruct (head l); [|done].
  by rewrite decide_True.
Qed.

Lemma closed_head_last l : head (closed l) = last (closed l).
Proof.
  destruct l as [|p l]; [done|]. unfold closed.
  change (head (p :: l)) with (Some p).
  destruct (last (p :: l)) as [q|] eqn:Hq.
  - destruct (decide (p = q)) as [->|Hne]; [by rewrite Hq|].
    by rewrite last_snoc.
  - by apply last_None in Hq.
Qed.

Lemma closed_idemp l : closed (closed l) = closed l.
Proof. apply closed_fixed, closed_head_last. Qed.

(** The last two statements of [_order_vertices] close the ring. *)
Lemma close_step l :
  l ≠ [] →
  (first ← py_index l 0;
   final ← py_index l (-1);
   if bool_decide (first ≠ final) then Ok (l ++ [first]) else Ok l)
  = Ok (closed l).
Proof.
  intros Hl. rewrite py_index_first, py_index_last. unfold closed.
  destruct l as [|p l]; [done|]. change (head (p :: l)) with (Some p).
  destruct (last (p :: l)) as [q|] eqn:Hq.
  - simpl. destruct (decide (p = q)) as [->|Hne].
    + by rewrite bool_decide_eq_false_2 by auto.
    + by rewrite bool_decide_eq_true_2.
  - by apply last_None in Hq.
Qed.

(** What [_order_vertices] returns on a ring with at least one point:
    the ring is reversed when [_clockwise] agrees with the flag, kept
    when it differs, then closed. *)
Lemma order_vertices_cons p l w :
  _order_vertices (p :: l) w =
  Ok (closed (if bool_decide (bool_decide (ring_sum (p :: l) > 0) ≠ w)
              then p :: l else reverse (p :: l))).
Proof.
  unfold _order_vertices. rewrite clockwise_cons. simpl mbind.
  unfold mbind at 1, result_bind at 1.
  apply close_step. case_bool_decide; [done|].
  rewrite reverse_cons. by destruct (reverse l).
Qed.

(** The orientation [_order_vertices] leaves behind: with the flag set
    the shoelace sum of the result is never positive, with the flag
    clear it is never negative. *)
Lemma order_vertices_orientation p l w r :
  _order_vertices (p :: l) w = Ok r →
  if w then ring_sum r <= 0 else ring_sum r >= 0.
Proof.
  rewrite order_vertices_cons. intros [= <-]. rewrite ring_sum_closed.
  pose proof (ring_sum_reverse (p :: l)) as Hrev.
  destruct (bool_decide (_ ≠ w)) eqn:Hkeep.
  - apply bool_decide_eq_true in Hkeep.
    destruct w; case_bool_decide; naive_solver lia.
  - apply bool_decide_eq_false in Hkeep.
    destruct w; case_bool_decide; try lia; naive_solver.
Qed.
End order_vertices.

(** C2.  The claim asks for a non-negative shoelace sum after
    [normalize(R, true)]: a ring that is not clockwise should be
    reversed.  On the counter-clockwise triangle (0,0), (4,0), (0,4)
    [_clockwise] answers [False], yet [_order_vertices(R, True)] keeps
    the order and only closes the ring, whose shoelace sum is still -16;
    on the same triangle listed clockwise it reverses the ring, which
    makes it counter-clockwise. *)
Theorem order_vertices_true_keeps_counter_clockwise :
  _clockwise [(0, 0); (4, 0); (0, 4)] = Ok false ∧
  _order_vertices [(0, 0); (4, 0); (0, 4)] true
    = Ok [(0, 0); (4, 0); (0, 4); (0, 0)] ∧
  shoelace_total [(0, 0); (4, 0); (0, 4); (0, 0)] = Ok (-16) ∧
  _clockwise [(0, 0); (0, 4); (4, 0)] = Ok true ∧
  _order_vertices [(0, 0); (0, 4); (4, 0)] true
    = Ok [(4, 0); (0, 4); (0, 0); (4, 0)] ∧
  shoelace_total [(4, 0); (0, 4); (0, 0); (4, 0)] = Ok (-16).
Proof. repeat split; reflexivity. Qed.

(** C9.  [_order_vertices] raises on the empty ring (the [IndexError] of
    [data[0]] in [_clockwise]) and returns a ring for every ring with at
    least one point. *)
Theorem order_vertices_raises_only_on_empty (w : bool) :
  _order_vertices [] w = Raise IndexError ∧
  ∀ (p : point) (l : list point), ∃ r, _order_vertices (p :: l) w = Ok r.
Proof.
  split; [done|]. intros p l. rewrite order_vertices_cons. eauto.
Qed.

(** C6, as stated, fails: three collinear points have shoelace sum 0,
    [_clockwise] answers [False] on them and on every reordering, so
    with the flag clear each call reverses the ring again. *)
Lemma order_vertices_not_idempotent :
  _order_vertices [(0, 0); (1, 0); (2, 0)] false
    = Ok [(2, 0); (1, 0); (0, 0); (2, 0)] ∧
  _order_vertices [(2, 0); (1, 0); (0, 0); (2, 0)] false
    = Ok [(2, 0); (0, 0); (1, 0); (2, 0)] ∧
  [(2, 0); (0, 0); (1, 0); (2, 0)] ≠@{list point} [(2, 0); (1, 0); (0, 0); (2, 0)].
Proof. repeat split; [reflexivity..|discriminate]. Qed.

(** C6, amended.  On a ring of integer coordinates whose shoelace sum
    is not zero, [_order_vertices] is idempotent for either flag.  (The
    restriction to integers matters: in binary64 the sum of a ring and
    of the ring reversed can both round to a positive number.) *)
Theorem order_vertices_idempotent (R : list point) (w : bool) (t : Z) :
  shoelace_total R = Ok t → t ≠ 0 →
  ∃ r, _order_vertices R w = Ok r ∧ _order_vertices r w = Ok r.
Proof.
  destruct R as [|p l]; [done|].
  rewrite shoelace_total_cons. intros [= <-] Hne.
  rewrite order_vertices_cons. eexists; split; [done|].
  set (d := if bool_decide (_ ≠ w) then _ else _).
  assert (d ≠ []) as Hd.
  { subst d. case_bool_decide; [done|]. rewrite reverse_cons.
    by destruct (reverse l). }
  destruct (closed d) as [|q k] eqn:Hk; [by apply closed_nonempty in Hk|].
  rewrite order_vertices_cons, <- Hk.
  assert (bool_decide (ring_sum (closed d) > 0) ≠ w) as Hkeep.
  { rewrite ring_sum_closed. subst d.
    pose proof (ring_sum_reverse (p :: l)) as Hrev.
    destruct (bool_decide (_ ≠ w)) eqn:Hcur.
    - by apply bool_decide_eq_true in Hcur.
    - apply bool_decide_eq_false in Hcur.
      destruct w; repeat case_bool_decide; try lia; naive_solver. }
  rewrite (bool_decide_eq_true_2 _ Hkeep). by rewrite closed_idemp.
Qed.

Lemma order_vertices_idempotent_witness :
  shoelace_total [(0, 0); (4, 0); (0, 4)] = Ok (-16) ∧ -16 ≠ 0 ∧
  ∃ r, _order_vertices [(0, 0); (4, 0); (0, 4)] false = Ok r
       ∧ _order_vertices r false = Ok r.
Proof.
  split; [reflexivity|]. split; [lia|].
  apply (order_vertices_idempotent [(0, 0); (4, 0); (0, 4)] false (-16));
    [reflexivity | lia].
Defined.

Section order_vertices_more.
Implicit Types (p q : point) (l r : list point) (w : bool).

Lemma closed_cases l :
  closed l = l ∨ ∃ a, head l = Some a ∧ closed l = l ++ [a].
Proof.
  unfold closed. destruct (head l) as [a|]; [|by left].
  destruct (last l) as [b|]; [|by left].
  destruct (decide (a = b)); [by left|]. right. by exists a.
Qed.

Lemma length_closed l : (length l ≤ length (closed l) ≤ S (length l))%nat.
Proof.
  destruct (closed_cases l) as [->|(a & _ & ->)]; [lia|].
  rewrite length_app. simpl. lia.
Qed.

Lemma elem_of_closed l x : x ∈ closed l ↔ x ∈ l.
Proof.
  destruct (closed_cases l) as [->|(a & Ha & ->)]; [done|].
  rewrite elem_of_app, list_elem_of_singleton. split; [|by left].
  intros [?| ->]; [done|]. by apply head_Some_elem_of.
Qed.
End order_vertices_more.

(** ** The path of a polygon: [_codes] and [_plot_polygon] *)

Section polygon_path.
Implicit Types (r : list point) (rs : list (list point)).

Lemma mapM_result_Ok {A B} (f : A → result B) (l : list A) (k : list B) :
  Forall2 (λ x y, f x = Ok y) l k → mapM f l = Ok k.
Proof.
  induction 1 as [|x y l k Hxy _ IH]; [done|].
  simpl. rewrite Hxy. simpl. by rewrite IH.
Qed.

Lemma codes_nonempty r : r ≠ [] → _codes r = Ok (ring_codes r).
Proof.
  destruct r as [|p r]; [done|]. intros _. unfold _codes, ring_codes.
  simpl. by rewrite Nat.sub_0_r.
Qed.

Lemma length_ring_codes r : r ≠ [] → length (ring_codes r) = length r.
Proof.
  destruct r as [|p r]; [done|]. intros _. unfold ring_codes. simpl.
  by rewrite length_replicate, Nat.sub_0_r.
Qed.

Lemma order_vertices_nonempty r w :
  r ≠ [] → ∃ r', _order_vertices r w = Ok r' ∧ r' ≠ [].
Proof.
  destruct r as [|p l]; [done|]. intros _. rewrite order_vertices_cons.
  eexists; split; [done|]. apply closed_nonempty.
  case_bool_decide; [done|]. rewrite reverse_cons. by destruct (reverse l).
Qed.

Lemma order_holes rs :
  Forall (λ r, r ≠ []) rs →
  ∃ rs', Forall2 (λ r r', _order_vertices r false = Ok r') rs rs'
         ∧ Forall (λ r', r' ≠ []) rs'.
Proof.
  induction 1 as [|r rs Hr _ (rs' & IH1 & IH2)]; [by exists []|].
  destruct (order_vertices_nonempty r false Hr) as (r' & Hr' & Hne).
  exists (r' :: rs'). split; by constructor.
Qed.
End polygon_path.

(** The buffers of the by-value builder [polygon_path], for rings that
    each have at least one point: the ordered outer ring followed by the
    ordered holes in the order given, and codes in parallel. *)
Lemma polygon_path_by_value (outer : list point) (holes : list (list point)) :
  outer ≠ [] → Forall (λ h, h ≠ []) holes →
  ∃ outer' holes',
    _order_vertices outer true = Ok outer' ∧
    Forall2 (λ h h', _order_vertices h false = Ok h') holes holes' ∧
    polygon_path (outer :: holes)
      = Ok (Path (outer' ++ concat holes')
                 (ring_codes outer' ++ concat (ring_codes <$> holes'))) ∧
    length (ring_codes outer' ++ concat (ring_codes <$> holes'))
      = length (outer' ++ concat holes').
Proof.
  intros Houter Hholes.
  destruct (order_vertices_nonempty outer true Houter) as (outer' & Ho & Hne).
  destruct (order_holes holes Hholes) as (holes' & Hh & Hne').
  exists outer', holes'. split; [done|]. split; [done|]. split.
  - unfold polygon_path. rewrite Ho. simpl.
    rewrite (mapM_result_Ok _ _ _ Hh). simpl.
    rewrite (codes_nonempty _ Hne). simpl.
    rewrite (mapM_result_Ok _codes holes' (ring_codes <$> holes')); [done|].
    clear Hh. induction Hne' as [|h hs Hh _ IH]; [constructor|].
    constructor; [by apply codes_nonempty | done].
  - rewrite !length_app, (length_ring_codes _ Hne). f_equal.
    clear Hh. induction Hne' as [|h hs Hh _ IH]; [done|].
    rewrite fmap_cons. cbn [concat].
    rewrite !length_app, (length_ring_codes _ Hh). by rewrite IH.
Qed.

(** ** The path of a polygon over list objects *)

Section polygon_path_objects.
Implicit Types (d : ring_ref) (ds : list ring_ref) (h : ring_objects).
Implicit Types (r : list point) (rs : list (list point)) (w : bool).



Lemma order_vertices_Ok_nonempty r w r' :
  _order_vertices r w = Ok r' → r ≠ [] ∧ r' ≠ [].
Proof.
  destruct r as [|q l]; [done|]. rewrite order_vertices_cons.
  intros [= <-]. split; [done|]. apply closed_nonempty.
  destruct (bool_decide _); [done|]. rewrite reverse_cons.
  by destruct (reverse l).
Qed.




End polygon_path_objects.




(** ** Kind compatibility: [_same_type] *)

Section same_type.
Implicit Types (a b : artist) (st : style).

Lemma same_type_other_class a b : type a ≠ type b → _same_type a b = Ok false.
Proof. intros H. unfold _same_type. by rewrite bool_decide_eq_true_2. Qed.

Lemma same_type_polygons xy1 xy2 st1 st2 :
  _same_type (Artist (PolygonShape xy1) st1) (Artist (PolygonShape xy2) st2)
  = Ok true.
Proof. reflexivity. Qed.

Lemma same_type_lines x1 y1 x2 y2 st1 st2 :
  _same_type (Artist (LineShape x1 y1) st1) (Artist (LineShape x2 y2) st2)
  = Ok (bool_decide (length x1 = length x2
                     ∨ (1 < length x1 ∧ 1 < length x2))%nat).
Proof.
  unfold _same_type. cbn.
  repeat case_bool_decide; try done; f_equal; lia.
Qed.
End same_type.

(** C5.  The claim makes any two primitives of the same class that are
    not stroked paths compatible.  For two [PathPatch] artists, the class
    [_plot_polygon] draws with, [_same_type] passes the class test, does
    not take the [Polygon] exit, and calls [get_xdata], which a patch
    does not have: it raises instead of returning [True]. *)
Theorem same_type_path_patches_raises (p1 p2 : path) (st1 st2 : style) :
  _same_type (Artist (PathShape p1) st1) (Artist (PathShape p2) st2)
  = Raise AttributeError.
Proof. reflexivity. Qed.

(** ** The layer registry: [hide], [show], [remove] *)

Section registry.
Implicit Types (s : plotter) (n : name) (g : ref) (gs : list ref).

Lemma with_lines_id s : with_lines (λ l, l ++ []) s = s.
Proof. destruct s. unfold with_lines. simpl. by rewrite app_nil_r. Qed.

Lemma with_patches_id s : with_patches (λ l, l ++ []) s = s.
Proof. destruct s. unfold with_patches. simpl. by rewrite app_nil_r. Qed.

Lemma for_each_add_line gs s :
  for_each gs add_line s = (Ok (), with_lines (λ l, l ++ gs) s).
Proof.
  revert s. induction gs as [|g gs IH]; intros s.
  - simpl. by rewrite with_lines_id.
  - simpl. unfold mbind, M_bind, add_line, modify. rewrite IH.
    destruct s. unfold with_lines. simpl. by rewrite <- (assoc_L (++)).
Qed.

Lemma for_each_add_patch gs s :
  for_each gs add_patch s = (Ok (), with_patches (λ l, l ++ gs) s).
Proof.
  revert s. induction gs as [|g gs IH]; intros s.
  - simpl. by rewrite with_patches_id.
  - simpl. unfold mbind, M_bind, add_patch, modify. rewrite IH.
    destruct s. unfold with_patches. simpl. by rewrite <- (assoc_L (++)).
Qed.

Lemma by_class_cons g gs (on_line on_patch : ref → M unit) s :
  by_class (g :: gs) on_line on_patch s =
  match type (objects s g) with
  | Line2D => for_each (g :: gs) on_line s
  | Polygon | PathPatch => for_each (g :: gs) on_patch s
  end.
Proof.
  unfold by_class. unfold mbind at 1 2, M_bind at 1 2, lift, get.
  rewrite py_index_first. change (head (g :: gs)) with (Some g).
  cbv beta iota. by destruct (type (objects s g)).
Qed.

Lemma by_class_nil (on_line on_patch : ref → M unit) s :
  by_class [] on_line on_patch s = (Raise IndexError, s).
Proof. reflexivity. Qed.

(** [show] on a layer that is present and not empty. *)
Lemma show_present s n g gs :
  _graphics s !! n = Some (g :: gs) →
  show n s =
  (Ok (), match type (objects s g) with
          | Line2D => with_lines (λ l, l ++ g :: gs) s
          | Polygon | PathPatch => with_patches (λ l, l ++ g :: gs) s
          end).
Proof.
  intros Hn. unfold show, try_except, graphics_get.
  unfold mbind at 1, M_bind at 1. rewrite Hn, by_class_cons.
  destruct (type (objects s g));
    by rewrite ?for_each_add_line, ?for_each_add_patch.
Qed.

(** [show] and [hide] on a layer that is present and empty:
    [graphics[0]] raises and neither handler catches it. *)
Lemma show_empty s n :
  _graphics s !! n = Some [] → show n s = (Raise IndexError, s).
Proof.
  intros Hn. unfold show, try_except, graphics_get.
  unfold mbind at 1, M_bind at 1. by rewrite Hn, by_class_nil.
Qed.

Lemma hide_empty s n :
  _graphics s !! n = Some [] → hide n s = (Raise IndexError, s).
Proof.
  intros Hn. unfold hide, try_except, graphics_get.
  unfold mbind at 1, M_bind at 1. by rewrite Hn, by_class_nil.
Qed.

Lemma hide_absent s n : _graphics s !! n = None → hide n s = (Ok (), s).
Proof.
  intros Hn. unfold hide, try_except, graphics_get.
  unfold mbind, M_bind. by rewrite Hn.
Qed.

Lemma attached_with_lines s gs g :
  attached (with_lines (λ l, l ++ gs) s) g
  = (attached s g + count_occ Nat.eq_dec gs g)%nat.
Proof.
  unfold attached, canvas. simpl. rewrite !count_occ_app. lia.
Qed.

Lemma attached_with_patches s gs g :
  attached (with_patches (λ l, l ++ gs) s) g
  = (attached s g + count_occ Nat.eq_dec gs g)%nat.
Proof.
  unfold attached, canvas. simpl. rewrite !count_occ_app. lia.
Qed.
End registry.

(** C8.  On a name the registry does not hold, [hide], [show] and
    [remove] return normally and leave the whole session, registry and
    axes included, as it was. *)
Theorem absent_name_is_noop (s : plotter) (n : name) :
  _graphics s !! n = None →
  hide n s = (Ok (), s) ∧ show n s = (Ok (), s) ∧ remove n s = (Ok (), s).
Proof.
  intros Hn. split; [by apply hide_absent|]. split.
  - unfold show, try_except, graphics_get. unfold mbind, M_bind.
    by rewrite Hn.
  - unfold remove, try_except. unfold mbind at 1, M_bind at 1.
    rewrite (hide_absent _ _ Hn). unfold graphics_del. by rewrite Hn.
Qed.

Lemma absent_name_is_noop_witness :
  let s := SimpleVectorPlotter [] in
  _graphics s !! NStr "nonexistent" = None ∧
  hide (NStr "nonexistent") s = (Ok (), s) ∧
  show (NStr "nonexistent") s = (Ok (), s) ∧
  remove (NStr "nonexistent") s = (Ok (), s).
Proof.
  split; [reflexivity|].
  apply (absent_name_is_noop (SimpleVectorPlotter []) (NStr "nonexistent")).
  reflexivity.
Defined.

(** C10.  [show] on a layer of the registry appends every primitive of
    the layer to the axes once more, whether or not it is attached
    already: each primitive gains as many attachments as the layer lists
    it, so one that was attached is now attached at least twice.  The
    registry is left as it was, and the call returns normally when the
    layer is not empty. *)
Theorem show_attaches_again (s : plotter) (n : name) (gs : list ref) :
  _graphics s !! n = Some gs →
  (∀ g, g ∈ gs → (1 ≤ attached s g)%nat) →
  ∃ r s',
    show n s = (r, s') ∧
    (gs ≠ [] → r = Ok ()) ∧
    (∀ g, attached s' g = (attached s g + count_occ Nat.eq_dec gs g)%nat) ∧
    (∀ g, g ∈ gs → (2 ≤ attached s' g)%nat) ∧
    _graphics s' = _graphics s.
Proof.
  intros Hn Hatt.
  assert (∀ s', (∀ g, attached s' g
                      = (attached s g + count_occ Nat.eq_dec gs g)%nat) →
                ∀ g, g ∈ gs → (2 ≤ attached s' g)%nat) as Htwice.
  { intros s' Hs' g Hg. rewrite Hs'. specialize (Hatt g Hg).
    apply list_elem_of_In, (count_occ_In Nat.eq_dec) in Hg. lia. }
  destruct gs as [|g0 gs'].
  - exists (Raise IndexError), s. rewrite (show_empty _ _ Hn).
    split; [done|]. split; [done|]. split; [|split; [|done]].
    + intros g. simpl. lia.
    + intros g Hg. by apply elem_of_nil in Hg.
  - rewrite (show_present _ _ _ _ Hn). eexists _, _. split; [done|].
    split; [done|].
    destruct (type (objects s g0));
      (split; [|split; [apply Htwice|done]]);
      intros g; first [apply attached_with_lines | apply attached_with_patches].
Qed.

Lemma show_attaches_again_witness :
  let s := with_graphics (<[NStr "roads" := [0%nat]]>)
             (with_lines (λ _, [0%nat]) (SimpleVectorPlotter [])) in
  _graphics s !! NStr "roads" = Some [0%nat] ∧
  (∀ g, g ∈ [0%nat] → (1 ≤ attached s g)%nat) ∧
  ∃ r s',
    show (NStr "roads") s = (r, s') ∧
    ([0%nat] ≠ [] → r = Ok ()) ∧
    (∀ g, attached s' g
          = (attached s g + count_occ Nat.eq_dec [0%nat] g)%nat) ∧
    (∀ g, g ∈ [0%nat] → (2 ≤ attached s' g)%nat) ∧
    _graphics s' = _graphics s.
Proof.
  intros s.
  assert (∀ g, g ∈ [0%nat] → (1 ≤ attached s g)%nat) as Hatt.
  { intros g ->%list_elem_of_singleton. vm_compute. lia. }
  split; [reflexivity|]. split; [exact Hatt|].
  apply (show_attaches_again s (NStr "roads") [0%nat]);
    [reflexivity | exact Hatt].
Defined.

(** ** Detaching a layer and attaching it again *)

Section hide_show.
Implicit Types (s : plotter) (n : name) (g : ref) (l gs : list ref).

Lemma list_remove_elem g l :
  g ∈ l → ∃ l', list_remove g l = Some l' ∧ l ≡ₚ g :: l'.
Proof.
  induction l as [|y l IH]; [by intros ?%elem_of_nil|].
  intros Hg. simpl. destruct (decide (g = y)) as [->|Hne]; [by eauto|].
  apply elem_of_cons in Hg as [?|Hg]; [done|].
  destruct (IH Hg) as (l' & -> & Hl'). exists (y :: l'). split; [done|].
  rewrite Hl'. apply Permutation_swap.
Qed.

(** The loop of [hide] over lines: when every primitive of the layer is
    in the list, every [remove] succeeds. *)
Lemma for_each_lines_remove gs s :
  gs ⊆+ lines s →
  ∃ l', for_each gs lines_remove s = (Ok (), with_lines (λ _, l') s)
        ∧ lines s ≡ₚ gs ++ l'.
Proof.
  revert s. induction gs as [|g gs IH]; intros s Hsub.
  - exists (lines s). split; [by destruct s|done].
  - apply submseteq_cons_l in Hsub as (k & Hk & Hsub).
    destruct (list_remove_elem g (lines s)) as (l1 & Hrm & Hl1).
    { rewrite Hk. by left. }
    assert (gs ⊆+ l1) as Hsub1.
    { rewrite Hsub. apply Permutation_submseteq.
      apply (Permutation_cons_inv (a := g)). by rewrite <- Hk, Hl1. }
    destruct (IH (with_lines (λ _, l1) s) Hsub1) as (l' & Hrun & Hl').
    exists l'. split.
    + simpl. unfold mbind, M_bind. unfold lines_remove at 1. rewrite Hrm.
      rewrite Hrun. by destruct s.
    + simpl in Hl'. rewrite Hl1, Hl'. done.
Qed.

Lemma for_each_patches_remove gs s :
  gs ⊆+ patches s →
  ∃ l', for_each gs patches_remove s = (Ok (), with_patches (λ _, l') s)
        ∧ patches s ≡ₚ gs ++ l'.
Proof.
  revert s. induction gs as [|g gs IH]; intros s Hsub.
  - exists (patches s). split; [by destruct s|done].
  - apply submseteq_cons_l in Hsub as (k & Hk & Hsub).
    destruct (list_remove_elem g (patches s)) as (l1 & Hrm & Hl1).
    { rewrite Hk. by left. }
    assert (gs ⊆+ l1) as Hsub1.
    { rewrite Hsub. apply Permutation_submseteq.
      apply (Permutation_cons_inv (a := g)). by rewrite <- Hk, Hl1. }
    destruct (IH (with_patches (λ _, l1) s) Hsub1) as (l' & Hrun & Hl').
    exists l'. split.
    + simpl. unfold mbind, M_bind. unfold patches_remove at 1. rewrite Hrm.
      rewrite Hrun. by destruct s.
    + simpl in Hl'. rewrite Hl1, Hl'. done.
Qed.

(** [hide] on a layer of lines that are all attached. *)
Lemma hide_lines s n g gs :
  _graphics s !! n = Some (g :: gs) → is_line s g → g :: gs ⊆+ lines s →
  ∃ l', hide n s = (Ok (), with_lines (λ _, l') s)
        ∧ lines s ≡ₚ (g :: gs) ++ l'.
Proof.
  intros Hn Hg Hsub.
  destruct (for_each_lines_remove _ _ Hsub) as (l' & Hrun & Hl').
  exists l'. split; [|done].
  unfold hide, try_except, graphics_get. unfold mbind at 1, M_bind at 1.
  rewrite Hn, by_class_cons. unfold is_line in Hg. by rewrite Hg, Hrun.
Qed.

(** [hide] on a layer of patches that are all attached. *)
Lemma hide_patches s n g gs :
  _graphics s !! n = Some (g :: gs) → is_patch s g → g :: gs ⊆+ patches s →
  ∃ l', hide n s = (Ok (), with_patches (λ _, l') s)
        ∧ patches s ≡ₚ (g :: gs) ++ l'.
Proof.
  intros Hn Hg Hsub.
  destruct (for_each_patches_remove _ _ Hsub) as (l' & Hrun & Hl').
  exists l'. split; [|done].
  unfold hide, try_except, graphics_get. unfold mbind at 1, M_bind at 1.
  rewrite Hn, by_class_cons. unfold is_patch in Hg.
  destruct (type (objects s g)); [done|by rewrite Hrun..].
Qed.
End hide_show.

(** C4, as stated, fails on two layers the registry can hold.  In a
    layer that mixes a line and a patch, [hide] takes the class of the
    first primitive for all of them: [lines.remove] on the patch raises
    [ValueError], the handler swallows it, and the patch stays attached;
    [show] then attaches it a second time.  On a layer with no primitive
    [graphics[0]] raises [IndexError], which [hide] does not catch. *)
Lemma hide_show_mixed_or_empty_layer :
  _graphics mixed_session !! NStr "sites" = Some [0; 1]%nat ∧
  attached mixed_session 0 = 1%nat ∧
  attached mixed_session 1 = 1%nat ∧
  (hide (NStr "sites") mixed_session).1 = Ok () ∧
  attached (hide (NStr "sites") mixed_session).2 1 = 1%nat ∧
  (show (NStr "sites") (hide (NStr "sites") mixed_session).2).1 = Ok () ∧
  attached (show (NStr "sites") (hide (NStr "sites") mixed_session).2).2 1
    = 2%nat ∧
  _graphics empty_layer_session !! NStr "none" = Some [] ∧
  hide (NStr "none") empty_layer_session
    = (Raise IndexError, empty_layer_session).
Proof. repeat split; vm_compute; reflexivity. Qed.

(** C4, amended.  For a layer that is not empty, holds only lines or only
    patches, and has each of them attached to the axes, [hide] detaches
    every primitive of the layer once and [show] attaches every one
    again: the axes hold the same artists as before, none twice and none
    missing, and the registry is unchanged. *)
Theorem hide_then_show_restores (s : plotter) (n : name) (gs : list ref) :
  _graphics s !! n = Some gs →
  gs ≠ [] →
  (Forall (is_line s) gs ∧ gs ⊆+ lines s)
  ∨ (Forall (is_patch s) gs ∧ gs ⊆+ patches s) →
  ∃ s1 s2,
    hide n s = (Ok (), s1) ∧
    show n s1 = (Ok (), s2) ∧
    canvas s ≡ₚ gs ++ canvas s1 ∧
    lines s2 ≡ₚ lines s ∧
    patches s2 ≡ₚ patches s ∧
    (∀ g, attached s2 g = attached s g) ∧
    _graphics s1 = _graphics s ∧
    _graphics s2 = _graphics s.
Proof.
  intros Hn Hne Hkind. destruct gs as [|g0 gs']; [done|].
  assert (∀ s2, lines s2 ≡ₚ lines s → patches s2 ≡ₚ patches s →
                ∀ g, attached s2 g = attached s g) as Hcount.
  { intros s2 Hl Hp. apply Permutation_count_occ. unfold canvas.
    by rewrite Hl, Hp. }
  destruct Hkind as [[Hline Hsub]|[Hpatch Hsub]].
  - apply Forall_cons_1 in Hline as [Hg0 _].
    destruct (hide_lines _ _ _ _ Hn Hg0 Hsub) as (l' & Hhide & Hl').
    eexists _, _. split; [exact Hhide|].
    rewrite (show_present _ n g0 gs') by done.
    unfold is_line in Hg0. simpl objects. rewrite Hg0.
    assert (l' ++ g0 :: gs' ≡ₚ lines s) as Hback.
    { rewrite Hl'. apply Permutation_app_comm. }
    split; [done|]. split.
    { unfold canvas. simpl. rewrite Hl'. by rewrite <- (assoc_L (++)). }
    split; [done|]. split; [done|]. split; [by apply Hcount|done].
  - apply Forall_cons_1 in Hpatch as [Hg0 _].
    destruct (hide_patches _ _ _ _ Hn Hg0 Hsub) as (l' & Hhide & Hl').
    eexists _, _. split; [exact Hhide|].
    rewrite (show_present _ n g0 gs') by done.
    assert (l' ++ g0 :: gs' ≡ₚ patches s) as Hback.
    { rewrite Hl'. apply Permutation_app_comm. }
    assert (canvas s ≡ₚ (g0 :: gs') ++ canvas (with_patches (λ _, l') s))
      as Hdet.
    { unfold canvas. simpl lines. simpl patches. rewrite Hl'.
      rewrite !(assoc_L (++)). apply Permutation_app_tail.
      apply Permutation_app_comm. }
    unfold is_patch in Hg0. simpl objects.
    destruct (type (objects s g0)); [done|..];
      (split; [done|]); (split; [exact Hdet|]);
      (split; [done|]); (split; [done|]); (split; [by apply Hcount|done]).
Qed.

Lemma hide_then_show_restores_witness :
  let s := with_graphics (<[NStr "roads" := [0; 1]%nat]>)
             (with_lines (λ _, [0; 1; 2]%nat) (SimpleVectorPlotter [])) in
  _graphics s !! NStr "roads" = Some [0; 1]%nat ∧
  [0; 1]%nat ≠ [] ∧
  ((Forall (is_line s) [0; 1]%nat ∧ [0; 1]%nat ⊆+ lines s)
   ∨ (Forall (is_patch s) [0; 1]%nat ∧ [0; 1]%nat ⊆+ patches s)) ∧
  ∃ s1 s2,
    hide (NStr "roads") s = (Ok (), s1) ∧
    show (NStr "roads") s1 = (Ok (), s2) ∧
    canvas s ≡ₚ [0; 1]%nat ++ canvas s1 ∧
    lines s2 ≡ₚ lines s ∧
    patches s2 ≡ₚ patches s ∧
    (∀ g, attached s2 g = attached s g) ∧
    _graphics s1 = _graphics s ∧
    _graphics s2 = _graphics s.
Proof.
  intros s.
  assert ((Forall (is_line s) [0; 1]%nat ∧ [0; 1]%nat ⊆+ lines s)
          ∨ (Forall (is_patch s) [0; 1]%nat ∧ [0; 1]%nat ⊆+ patches s))
    as Hkind.
  { left. split; [by repeat constructor|].
    simpl. apply submseteq_skip, submseteq_skip, submseteq_nil_l. }
  split; [reflexivity|]. split; [discriminate|]. split; [exact Hkind|].
  apply (hide_then_show_restores s (NStr "roads") [0; 1]%nat);
    [reflexivity | discriminate | exact Hkind].
Defined.

(** ** Replacing a layer: [_set_graphics] *)

Section set_graphics.
Implicit Types (s : plotter) (n : name) (g : ref) (gs : list ref).

Lemma for_each_lines_remove_frame gs s :
  ∃ r s', for_each gs lines_remove s = (r, s')
          ∧ (r = Ok () ∨ r = Raise ValueError) ∧ same_registry s s'.
Proof.
  revert s. induction gs as [|g gs IH]; intros s.
  - exists (Ok ()), s. by repeat split; auto.
  - simpl. unfold mbind, M_bind. unfold lines_remove at 1.
    destruct (list_remove g (lines s)) as [l|].
    + destruct (IH (with_lines (λ _, l) s)) as (r & s' & -> & Hr & Hs').
      by exists r, s'.
    + exists (Raise ValueError), s. by repeat split; auto.
Qed.

Lemma for_each_patches_remove_frame gs s :
  ∃ r s', for_each gs patches_remove s = (r, s')
          ∧ (r = Ok () ∨ r = Raise ValueError) ∧ same_registry s s'.
Proof.
  revert s. induction gs as [|g gs IH]; intros s.
  - exists (Ok ()), s. by repeat split; auto.
  - simpl. unfold mbind, M_bind. unfold patches_remove at 1.
    destruct (list_remove g (patches s)) as [l|].
    + destruct (IH (with_patches (λ _, l) s)) as (r & s' & -> & Hr & Hs').
      by exists r, s'.
    + exists (Raise ValueError), s. by repeat split; auto.
Qed.

(** [hide] on a layer that is not empty always returns normally: a
    [ValueError] from a primitive that is not attached is swallowed. *)
Lemma hide_returns s n g gs :
  _graphics s !! n = Some (g :: gs) →
  ∃ s', hide n s = (Ok (), s') ∧ same_registry s s'.
Proof.
  intros Hn. unfold hide, try_except, graphics_get.
  unfold mbind at 1, M_bind at 1. rewrite Hn, by_class_cons.
  destruct (type (objects s g)).
  - destruct (for_each_lines_remove_frame (g :: gs) s)
      as (r & s' & -> & [->| ->] & Hs'); by exists s'.
  - destruct (for_each_patches_remove_frame (g :: gs) s)
      as (r & s' & -> & [->| ->] & Hs'); by exists s'.
  - destruct (for_each_patches_remove_frame (g :: gs) s)
      as (r & s' & -> & [->| ->] & Hs'); by exists s'.
Qed.

(** The restyling loop gives every new primitive the drawing properties
    of [styled_graphic] and leaves its data, and every other artist,
    alone. *)
Lemma for_each_update_from gs styled s :
  ∃ s', for_each gs (λ graphic, update_from graphic styled) s = (Ok (), s')
        ∧ _graphics s' = _graphics s
        ∧ ∀ g, objects s' g =
               if decide (g ∈ gs)
               then Artist (artist_shape (objects s g))
                           (artist_style (objects s styled))
               else objects s g.
Proof.
  revert s. induction gs as [|h gs IH]; intros s.
  - exists s. split; [done|]. split; [done|]. intros g.
    by rewrite decide_False by apply not_elem_of_nil.
  - simpl. unfold mbind, M_bind. unfold update_from at 1, modify at 1.
    set (s1 := with_objects _ s).
    assert (∀ g, objects s1 g =
                 if decide (h = g)
                 then Artist (artist_shape (objects s g))
                             (artist_style (objects s styled))
                 else objects s g) as Hs1.
    { intros g. subst s1. simpl. destruct (decide (h = g)) as [->|Hne].
      - by rewrite fn_lookup_insert.
      - by rewrite fn_lookup_insert_ne. }
    destruct (IH s1) as (s' & -> & Hgr & Hobj).
    exists s'. split; [done|]. split; [done|].
    intros g. rewrite Hobj, !Hs1.
    destruct (decide (g ∈ gs)) as [Hin|Hin].
    + rewrite (decide_True (P := g ∈ h :: gs)) by (by right).
      by destruct (decide (h = g)), (decide (h = styled)).
    + destruct (decide (h = g)) as [Hg|Hg].
      * rewrite (decide_True (P := g ∈ h :: gs)) by (subst; by left). done.
      * rewrite (decide_False (P := g ∈ h :: gs)); [done|].
        by intros [?|?]%elem_of_cons.
Qed.

(** [_set_graphics] on a name whose layer is present and not empty,
    with new primitives and no explicit style: the old layer is hidden,
    then [_same_type] on the two first primitives decides. *)
Lemma set_graphics_replace s n a0 A b0 B :
  truthy n = true →
  _graphics s !! n = Some (a0 :: A) →
  ∃ s1, hide n s = (Ok (), s1) ∧ same_registry s s1 ∧
    _set_graphics (b0 :: B) n false s =
    match _same_type (objects s b0) (objects s a0) with
    | Ok true =>
        (for_each (b0 :: B) (λ graphic, update_from graphic a0) ≫= λ _,
         modify (with_graphics (<[n := b0 :: B]>))) s1
    | Ok false => modify (with_graphics (<[n := b0 :: B]>)) s1
    | Raise e => (Raise e, s1)
    end.
Proof.
  intros Ht Hn.
  destruct (hide_returns _ _ _ _ Hn) as (s1 & Hhide & Hgr & Hobj).
  exists s1. split; [done|]. split; [done|].
  unfold _set_graphics. rewrite Ht.
  unfold mbind at 1, M_bind at 1, get at 1.
  unfold mbind at 1, M_bind at 1, get at 1.
  rewrite Hn. rewrite bool_decide_eq_true_2 by eauto.
  unfold mbind at 1, M_bind at 1.
  unfold mbind at 1, M_bind at 1.
  rewrite Hhide. cbn [negb].
  unfold mbind at 1, M_bind at 1.
  assert ((lift (py_index (b0 :: B) 0) ≫= λ g0,
           graphics_get n ≫= λ old,
           lift (py_index old 0) ≫= λ o0,
           get (λ s0, objects s0 g0) ≫= λ a,
           get (λ s0, objects s0 o0) ≫= λ b,
           lift (_same_type a b)) s1
          = (_same_type (objects s b0) (objects s a0), s1)) as ->.
  { unfold mbind, M_bind, lift, get, graphics_get.
    by rewrite Hgr, Hn, Hobj. }
  destruct (_same_type (objects s b0) (objects s a0)) as [[]|e]; [|done..].
  unfold mbind at 1 2, M_bind at 1 2, graphics_get at 1.
  by rewrite Hgr, Hn.
Qed.

(** Style continuity where [_same_type] answers [True]: every new
    primitive ends up with the drawing properties of the first primitive
    of the layer it replaces. *)
Lemma set_graphics_keeps_style s n a0 A b0 B :
  truthy n = true →
  _graphics s !! n = Some (a0 :: A) →
  _same_type (objects s b0) (objects s a0) = Ok true →
  ∃ s', _set_graphics (b0 :: B) n false s = (Ok (), s')
        ∧ _graphics s' = <[n := b0 :: B]> (_graphics s)
        ∧ ∀ b, b ∈ b0 :: B →
               artist_style (objects s' b) = artist_style (objects s a0).
Proof.
  intros Ht Hn Hsame.
  destruct (set_graphics_replace s n a0 A b0 B Ht Hn)
    as (s1 & _ & [Hgr Hobj] & ->).
  rewrite Hsame.
  destruct (for_each_update_from (b0 :: B) a0 s1) as (s2 & Hrun & Hgr2 & Hobj2).
  unfold mbind, M_bind. rewrite Hrun. eexists. split; [done|].
  split; [simpl; by rewrite Hgr2, Hgr|].
  intros b Hb. simpl. rewrite Hobj2, decide_True by done. simpl.
  by rewrite Hobj.
Qed.

Lemma same_type_path_patch_class (a b : artist) :
  type a = PathPatch → type b = PathPatch →
  _same_type a b = Raise AttributeError.
Proof. by destruct a as [[] ?], b as [[] ?]. Qed.

(** Where both layers are filled paths [_set_graphics] raises: the old
    layer has been hidden, the registry still names it, and the new
    primitives are neither restyled nor stored. *)
Lemma set_graphics_path_patches_raise s n a0 A b0 B :
  truthy n = true →
  _graphics s !! n = Some (a0 :: A) →
  type (objects s a0) = PathPatch →
  type (objects s b0) = PathPatch →
  ∃ s1, _set_graphics (b0 :: B) n false s = (Raise AttributeError, s1)
        ∧ same_registry s s1.
Proof.
  intros Ht Hn Ha Hb.
  destruct (set_graphics_replace s n a0 A b0 B Ht Hn)
    as (s1 & _ & Hsame & ->).
  rewrite (same_type_path_patch_class _ _ Hb Ha). by exists s1.
Qed.
End set_graphics.


(** C1.  The claim promises style continuity for any two layers of the
    same drawable kind.  For filled paths the code does not deliver it:
    on a fresh session with palette (b, g), a polygon is drawn under the
    name "parcels" with no style (it is filled with b), then a second
    polygon is drawn under the same name with no style.  The second call
    raises [AttributeError] out of [_same_type]; its patch keeps the
    fill g it was created with, the first patch has been detached, and
    the registry still holds the first patch under "parcels". *)
Theorem redrawn_polygon_layer_is_not_restyled :
  let s0 := SimpleVectorPlotter [{[ "color" := "b" ]}; {[ "color" := "g" ]}] in
  let first := plot_polygon [[(0, 0); (4, 0); (0, 4)]] "" "parcels" ∅ s0 in
  let second := plot_polygon [[(1, 1); (3, 1); (1, 3)]] "" "parcels" ∅ first.2 in
  first.1 = Ok () ∧
  _graphics first.2 !! NStr "parcels" = Some [0%nat] ∧
  artist_style (objects first.2 0%nat) !! "fc" = Some "b" ∧
  second.1 = Raise AttributeError ∧
  artist_style (objects second.2 1%nat) !! "fc" = Some "g" ∧
  _graphics second.2 !! NStr "parcels" = Some [0%nat] ∧
  patches second.2 = [1%nat].
Proof. repeat split; vm_compute; reflexivity. Qed.

(** ** The colour rotation: [_next_color_new] *)

Section palette.
Implicit Types (s : plotter) (cs : list string) (k : nat).

Lemma next_color_step s cs :
  has_colors (colors s) cs →
  cs ≠ [] →
  -1 <= current_color s < Z.of_nat (length cs) →
  ∃ c, cs !! (Z.to_nat (current_color s + 1) mod length cs)%nat = Some c ∧
       _next_color_new s =
       (Ok c, with_current_color
                (Z.of_nat (Z.to_nat (current_color s + 1) mod length cs)) s).
Proof.
  intros Hcs Hne Hcur.
  pose proof (Forall2_length _ _ _ Hcs) as Hlen.
  assert (0 < length cs)%nat as Hpos by (destruct cs; [done|simpl; lia]).
  set (j := (Z.to_nat (current_color s + 1) mod length cs)%nat).
  assert (j < length cs)%nat as Hj by (apply Nat.mod_upper_bound; lia).
  destruct (lookup_lt_is_Some_2 cs j Hj) as [c Hc].
  destruct (Forall2_lookup_r _ _ _ _ _ Hcs Hc) as (e & He & Hec).
  exists c. split; [done|].
  unfold _next_color_new.
  unfold mbind, M_bind, modify, get, lift, mret, M_ret, raise. simpl.
  rewrite Hlen.
  assert (Z.of_nat j = if bool_decide (current_color s + 1 >= Z.of_nat (length cs))
                       then 0 else current_color s + 1) as Hjz.
  { subst j. case_bool_decide.
    - replace (Z.to_nat (current_color s + 1)) with (length cs) by lia.
      by rewrite Nat.Div0.mod_same.
    - rewrite Nat.mod_small by lia. lia. }
  case_bool_decide; simpl; rewrite py_index_nonneg by lia.
  - replace (Z.to_nat 0) with j by lia. rewrite He, Hec, Hjz. by destruct s.
  - replace (Z.to_nat (current_color s + 1)) with j by lia.
    rewrite He, Hec, Hjz. by destruct s.
Qed.

(** [k] calls in a row walk the palette cyclically from the entry after
    the current one. *)
Lemma next_colors_from k s cs :
  has_colors (colors s) cs →
  cs ≠ [] →
  -1 <= current_color s < Z.of_nat (length cs) →
  ∃ out s',
    next_colors k s = (Ok out, s') ∧
    length out = k ∧
    ∀ i, (i < k)%nat →
         out !! i = cs !! ((Z.to_nat (current_color s + 1) + i) mod length cs)%nat.
Proof.
  revert s. induction k as [|k IH]; intros s Hcs Hne Hcur.
  - exists [], s. repeat split. intros i Hi. lia.
  - destruct (next_color_step s cs Hcs Hne Hcur) as (c & Hc & Hstep).
    set (j := (Z.to_nat (current_color s + 1) mod length cs)%nat) in *.
    assert (0 < length cs)%nat as Hpos by (destruct cs; [done|simpl; lia]).
    assert (j < length cs)%nat as Hj by (apply Nat.mod_upper_bound; lia).
    destruct (IH (with_current_color (Z.of_nat j) s) Hcs Hne)
      as (out & s' & Hrun & Hlen & Hout); [simpl; lia|].
    exists (c :: out), s'. split; [|split].
    + simpl. unfold mbind, M_bind. rewrite Hstep, Hrun. done.
    + simpl. by rewrite Hlen.
    + intros [|i] Hi.
      * simpl. by rewrite Nat.add_0_r.
      * simpl. rewrite Hout by lia. simpl. f_equal.
        replace (Z.to_nat (Z.of_nat j + 1)) with (j + 1)%nat by lia.
        subst j. by rewrite <- Nat.add_assoc, Nat.Div0.add_mod_idemp_l.
Qed.
End palette.

(** ** Drawing polygons with palette colours *)

Section plot.
Implicit Types (s : plotter) (d : list (list point)).

Lemma polygon_path_returns d :
  d ≠ [] → Forall (λ r, r ≠ []) d → ∃ p, polygon_path d = Ok p.
Proof.
  destruct d as [|outer holes]; [done|]. intros _ [Houter Hholes]%Forall_cons_1.
  destruct (order_vertices_nonempty outer true Houter) as (outer' & Ho & Hne).
  destruct (order_holes holes Hholes) as (holes' & Hh & Hne').
  unfold polygon_path. rewrite Ho. simpl.
  rewrite (mapM_result_Ok _ _ _ Hh). simpl.
  rewrite (codes_nonempty _ Hne). simpl.
  rewrite (mapM_result_Ok _codes holes' (ring_codes <$> holes')); [by eauto|].
  clear Hh. induction Hne' as [|h hs Hh _ IH]; [constructor|].
  constructor; [by apply codes_nonempty | done].
Qed.

Lemma plot_polygon_unnamed s d p c s' :
  polygon_path d = Ok p →
  _next_color_new s = (Ok c, s') →
  _graphics s' !! NInt (size (_graphics s')) = None →
  plot_polygon d "" "" ∅ s =
  (Ok (),
   with_graphics (<[NInt (size (_graphics s')) := [next_ref s']]>)
     (with_patches (λ l, l ++ [next_ref s'])
        (with_objects (<[next_ref s' := Artist (PathShape p) (<["fc" := c]> ∅)]>)
           (with_next_ref (S (next_ref s')) s')))).
Proof.
  intros Hp Hc Hfresh. unfold plot_polygon.
  rewrite (bool_decide_eq_false_2 ("" ≠ "" ∨ (∅ : style) ≠ ∅))
    by (intros [H|H]; by apply H).
  rewrite (bool_decide_eq_false_2 (is_Some _ ∨ is_Some _))
    by (rewrite !lookup_empty; intros [[? ?]|[? ?]]; done).
  rewrite (bool_decide_eq_false_2 ("" ≠ "")) by (intros H; by apply H).
  unfold mbind at 1, M_bind at 1. unfold mbind at 1, M_bind at 1.
  rewrite Hc. unfold mret at 1, M_ret at 1.
  unfold mbind at 1, M_bind at 1.
  unfold _plot_polygon. unfold mbind at 1, M_bind at 1. unfold lift at 1.
  rewrite Hp. unfold mbind, M_bind, get, modify, add_patch, mret, M_ret. simpl.
  unfold _set_graphics. unfold mbind, M_bind, get, modify, mret, M_ret. simpl.
  rewrite Hfresh. by rewrite bool_decide_eq_false_2 by (by intros [? ?]).
Qed.
End plot.

(** C7.  On a fresh session whose palette is not empty, the colours
    handed out by successive calls of [_next_color] are the palette
    entries in order, starting with the first and wrapping round after
    the last.  A polygon drawn without a colour on the fresh session is
    filled with the first entry, and the next one drawn without a colour
    with the entry after it. *)
Theorem palette_rotation (P : list cycle_entry) (cs : list string) (k : nat)
    (d1 d2 : list (list point)) :
  has_colors P cs → cs ≠ [] →
  d1 ≠ [] → Forall (λ r, r ≠ []) d1 →
  d2 ≠ [] → Forall (λ r, r ≠ []) d2 →
  (∃ out s',
     next_colors k (SimpleVectorPlotter P) = (Ok out, s') ∧
     length out = k ∧
     ∀ i, (i < k)%nat → out !! i = cs !! (i mod length cs)%nat) ∧
  (∃ s1 s2,
     plot_polygon d1 "" "" ∅ (SimpleVectorPlotter P) = (Ok (), s1) ∧
     _graphics s1 !! NInt 0 = Some [0%nat] ∧
     artist_style (objects s1 0%nat) !! "fc" = cs !! 0%nat ∧
     plot_polygon d2 "" "" ∅ s1 = (Ok (), s2) ∧
     _graphics s2 !! NInt 1 = Some [1%nat] ∧
     artist_style (objects s2 1%nat) !! "fc" = cs !! (1 mod length cs)%nat).
Proof.
  intros Hcs Hne Hd1 Hr1 Hd2 Hr2.
  assert (0 < length cs)%nat as Hpos by (destruct cs; [done|simpl; lia]).
  split.
  - destruct (next_colors_from k (SimpleVectorPlotter P) cs Hcs Hne)
      as (out & s' & Hrun & Hlen & Hout); [simpl; lia|].
    exists out, s'. split; [done|]. split; [done|].
    intros i Hi. by rewrite Hout.
  - destruct (polygon_path_returns d1 Hd1 Hr1) as [p1 Hp1].
    destruct (polygon_path_returns d2 Hd2 Hr2) as [p2 Hp2].
    destruct (next_color_step (SimpleVectorPlotter P) cs Hcs Hne)
      as (c0 & Hc0 & Hstep0); [simpl; lia|].
    simpl in Hc0, Hstep0. rewrite Nat.Div0.mod_0_l in Hc0, Hstep0.
    pose proof (plot_polygon_unnamed _ d1 p1 c0 _ Hp1 Hstep0) as Hplot1.
    simpl in Hplot1. rewrite map_size_empty in Hplot1.
    specialize (Hplot1 (lookup_empty _)).
    match type of Hplot1 with _ = (_, ?s) => set (s1 := s) in * end.
    destruct (next_color_step s1 cs Hcs Hne) as (c1 & Hc1 & Hstep1);
      [simpl; lia|].
    simpl in Hc1, Hstep1.
    pose proof (plot_polygon_unnamed _ d2 p2 c1 _ Hp2 Hstep1) as Hplot2.
    simpl in Hplot2. rewrite map_size_insert_None, map_size_empty in Hplot2
      by apply lookup_empty.
    specialize (Hplot2 ltac:(by rewrite lookup_insert_ne, lookup_empty)).
    match type of Hplot2 with _ = (_, ?s) => set (s2 := s) in * end.
    exists s1, s2. split; [done|].
    split; [simpl; by rewrite lookup_insert_eq|].
    split; [simpl; by rewrite lookup_insert_eq, Hc0|].
    split; [done|].
    split; [simpl; by rewrite lookup_insert_eq|].
    simpl. rewrite lookup_insert_eq. symmetry. exact Hc1.
Qed.

Lemma palette_rotation_witness :
  let P : list cycle_entry := [{[ "color" := "b" ]}; {[ "color" := "g" ]}] in
  let cs := ["b"; "g"] in
  let d1 : list (list point) := [[(0, 0); (4, 0); (0, 4)]] in
  let d2 : list (list point) := [[(1, 1); (3, 1); (1, 3)]] in
  has_colors P cs ∧ cs ≠ [] ∧
  d1 ≠ [] ∧ Forall (λ r, r ≠ []) d1 ∧
  d2 ≠ [] ∧ Forall (λ r, r ≠ []) d2 ∧
  (∃ out s',
     next_colors 5 (SimpleVectorPlotter P) = (Ok out, s') ∧
     length out = 5%nat ∧
     ∀ i, (i < 5)%nat → out !! i = cs !! (i mod length cs)%nat) ∧
  (∃ s1 s2,
     plot_polygon d1 "" "" ∅ (SimpleVectorPlotter P) = (Ok (), s1) ∧
     _graphics s1 !! NInt 0 = Some [0%nat] ∧
     artist_style (objects s1 0%nat) !! "fc" = cs !! 0%nat ∧
     plot_polygon d2 "" "" ∅ s1 = (Ok (), s2) ∧
     _graphics s2 !! NInt 1 = Some [1%nat] ∧
     artist_style (objects s2 1%nat) !! "fc" = cs !! (1 mod length cs)%nat).
Proof.
  intros P cs d1 d2.
  assert (has_colors P cs) as Hcs by (by repeat constructor).
  assert (Forall (λ r : list point, r ≠ []) d1) as Hr1 by (by repeat constructor).
  assert (Forall (λ r : list point, r ≠ []) d2) as Hr2 by (by repeat constructor).
  split; [exact Hcs|]. split; [discriminate|].
  split; [discriminate|]. split; [exact Hr1|].
  split; [discriminate|]. split; [exact Hr2|].
  apply (palette_rotation P cs 5 d1 d2);
    [exact Hcs | discriminate | discriminate | exact Hr1
     | discriminate | exact Hr2].
Defined.

(* ================================================================== *)
(** * Part III: further properties of the code                         *)
(* ================================================================== *)

(** ** More on the shoelace sum *)

Section shoelace_more.
Implicit Types (p q : point) (l : list point).

Lemma path_sum_app l1 m l2 :
  path_sum (l1 ++ m :: l2) = path_sum (l1 ++ [m]) + path_sum (m :: l2).
Proof.
  induction l1 as [|a l1 IH].
  - simpl. destruct l2; lia.
  - destruct l1 as [|b l1].
    + simpl. destruct l2; lia.
    + change (path_sum ((a :: b :: l1) ++ m :: l2))
        with (edge a b + path_sum ((b :: l1) ++ m :: l2)).
      change (path_sum ((a :: b :: l1) ++ [m]))
        with (edge a b + path_sum ((b :: l1) ++ [m])).
      rewrite IH. lia.
Qed.

Lemma ring_sum_rotate l1 l2 : ring_sum (l1 ++ l2) = ring_sum (l2 ++ l1).
Proof.
  destruct l1 as [|a l1]; [by rewrite app_nil_r|].
  destruct l2 as [|b l2]; [by rewrite app_nil_r|].
  unfold ring_sum. simpl app. cbv beta iota.
  rewrite <- !(assoc_L (++)). simpl app.
  change (a :: l1 ++ b :: l2 ++ [a]) with ((a :: l1) ++ b :: l2 ++ [a]).
  change (b :: l2 ++ a :: l1 ++ [b]) with ((b :: l2) ++ a :: l1 ++ [b]).
  rewrite (path_sum_app (a :: l1) b (l2 ++ [a])).
  rewrite (path_sum_app (b :: l2) a (l1 ++ [b])).
  simpl app. lia.
Qed.

(** The chain sum of a moved chain differs by a term that only sees the
    two ends. *)
Lemma path_sum_shift dx dy p l :
  path_sum (shift dx dy <$> (p :: l))
  = path_sum (p :: l) + 2 * dy * ((default p (last l)).1 - p.1).
Proof.
  revert p. induction l as [|q l IH]; intros p.
  - simpl. lia.
  - rewrite !fmap_cons.
    change (path_sum (shift dx dy p :: shift dx dy q :: (shift dx dy <$> l)))
      with (edge (shift dx dy p) (shift dx dy q)
            + path_sum (shift dx dy <$> (q :: l))).
    change (path_sum (p :: q :: l)) with (edge p q + path_sum (q :: l)).
    rewrite IH, last_cons.
    destruct (last l) as [r|]; unfold edge, shift; simpl; lia.
Qed.

Lemma ring_sum_shift dx dy l : ring_sum (shift dx dy <$> l) = ring_sum l.
Proof.
  destruct l as [|p l]; [done|]. unfold ring_sum.
  rewrite fmap_cons. cbv beta iota.
  replace ((shift dx dy p :: (shift dx dy <$> l)) ++ [shift dx dy p])
    with (shift dx dy <$> (p :: (l ++ [p])))
    by (by rewrite fmap_cons, fmap_app).
  rewrite path_sum_shift, last_snoc. simpl default.
  change ((p :: l) ++ [p]) with (p :: (l ++ [p])). lia.
Qed.

(** Edge by edge the code's term is a telescoping difference minus the
    cross product. *)
Lemma path_sum_cross p l :
  path_sum (p :: l)
  = (default p (last l)).1 * (default p (last l)).2 - p.1 * p.2
    - cross_path (p :: l).
Proof.
  revert p. induction l as [|q l IH]; intros p.
  - simpl. lia.
  - change (path_sum (p :: q :: l)) with (edge p q + path_sum (q :: l)).
    change (cross_path (p :: q :: l)) with (cross p q + cross_path (q :: l)).
    rewrite IH, last_cons.
    destruct (last l) as [r|]; unfold edge, cross; simpl; lia.
Qed.

Lemma ring_sum_twice_area l : ring_sum l = - twice_area l.
Proof.
  destruct l as [|p l]; [done|]. unfold ring_sum, twice_area.
  simpl app. rewrite path_sum_cross, last_snoc. simpl. lia.
Qed.
End shoelace_more.

(** X1.  On rings of integer coordinates the total of [_clockwise]
    does not depend on the vertex the ring is listed from: a ring and
    any rotation of it have the same total, and so the same answer (and
    both raise on the empty ring). *)
Theorem clockwise_rotation_invariant (l1 l2 : list point) :
  shoelace_total (l1 ++ l2) = shoelace_total (l2 ++ l1) ∧
  _clockwise (l1 ++ l2) = _clockwise (l2 ++ l1).
Proof.
  assert (shoelace_total (l1 ++ l2) = shoelace_total (l2 ++ l1)) as Htotal.
  { destruct l1 as [|a l1].
    - by rewrite app_nil_r.
    - destruct l2 as [|b l2]; [by rewrite app_nil_r|].
      simpl app. rewrite !shoelace_total_cons. f_equal.
      apply (ring_sum_rotate (a :: l1) (b :: l2)). }
  split; [done|]. unfold _clockwise. by rewrite Htotal.
Qed.

(** X2.  On rings of integer coordinates, listing a ring backwards
    negates the total of [_clockwise]: the reversed ring is clockwise
    exactly when the total of the ring given is negative, so on a ring
    whose total is not zero reversing flips the answer. *)
Theorem clockwise_reverse (p : point) (l : list point) :
  shoelace_total (p :: l) = Ok (ring_sum (p :: l)) ∧
  shoelace_total (reverse (p :: l)) = Ok (- ring_sum (p :: l)) ∧
  _clockwise (p :: l) = Ok (bool_decide (ring_sum (p :: l) > 0)) ∧
  _clockwise (reverse (p :: l)) = Ok (bool_decide (ring_sum (p :: l) < 0)).
Proof.
  assert (shoelace_total (reverse (p :: l)) = Ok (- ring_sum (p :: l))) as Hrev.
  { rewrite <- ring_sum_reverse. rewrite reverse_cons.
    destruct (reverse l) as [|q t]; simpl app; apply shoelace_total_cons. }
  split; [apply shoelace_total_cons|]. split; [done|].
  split; [apply clockwise_cons|].
  unfold _clockwise. rewrite Hrev. simpl. f_equal.
  repeat case_bool_decide; try done; lia.
Qed.

(** X3.  On rings of integer coordinates, moving every vertex by the
    same integer offset changes neither the total nor the answer of
    [_clockwise]. *)
Theorem clockwise_translation_invariant (dx dy : Z) (l : list point) :
  shoelace_total (shift dx dy <$> l) = shoelace_total l ∧
  _clockwise (shift dx dy <$> l) = _clockwise l.
Proof.
  assert (shoelace_total (shift dx dy <$> l) = shoelace_total l) as Htotal.
  { destruct l as [|p l]; [done|]. rewrite fmap_cons, !shoelace_total_cons.
    f_equal. apply (ring_sum_shift dx dy (p :: l)). }
  split; [done|]. unfold _clockwise. by rewrite Htotal.
Qed.

(** X4.  The total of [_clockwise] is minus twice the signed area of
    the ring as the shoelace formula [sum (x1 * y2 - x2 * y1)] gives it:
    [_clockwise] answers [True] exactly on rings of negative signed
    area, which are the clockwise ones. *)
Theorem clockwise_is_negative_area (p : point) (l : list point) :
  shoelace_total (p :: l) = Ok (- twice_area (p :: l)) ∧
  _clockwise (p :: l) = Ok (bool_decide (twice_area (p :: l) < 0)).
Proof.
  rewrite clockwise_cons, shoelace_total_cons, ring_sum_twice_area.
  split; [done|]. f_equal. repeat case_bool_decide; try done; lia.
Qed.

(** ** More on [_order_vertices] *)


(** X6.  On a ring with at least one point [_order_vertices] returns a
    ring that is closed (its first and last point are equal), has the
    points of the input and no others, and is at most one point longer
    than the input. *)
Theorem order_vertices_shape (p : point) (l : list point) (w : bool) :
  ∃ r, _order_vertices (p :: l) w = Ok r ∧
       head r = last r ∧
       (length (p :: l) ≤ length r ≤ S (length (p :: l)))%nat ∧
       ∀ x, x ∈ r ↔ x ∈ p :: l.
Proof.
  rewrite order_vertices_cons. eexists. split; [done|].
  split; [apply closed_head_last|].
  destruct (bool_decide _).
  - split; [apply length_closed|]. intros x. apply elem_of_closed.
  - split.
    + pose proof (length_closed (reverse (p :: l))) as H.
      by rewrite length_reverse in H.
    + intros x. by rewrite elem_of_closed, elem_of_reverse.
Qed.

(** X7.  On rings of integer coordinates [_order_vertices] keeps the
    size of the total and fixes its sign by the flag alone: with the
    flag set the returned ring has total [- |t|], with the flag clear
    [|t|], where [t] is the total of the ring given. *)
Theorem order_vertices_total (p : point) (l : list point) (w : bool) :
  ∃ r, _order_vertices (p :: l) w = Ok r ∧
       shoelace_total r
       = Ok (if w then - Z.abs (ring_sum (p :: l))
             else Z.abs (ring_sum (p :: l))).
Proof.
  rewrite order_vertices_cons. eexists. split; [done|].
  set (d := if bool_decide _ then _ else _).
  assert (d ≠ []) as Hd.
  { subst d. destruct (bool_decide _); [done|].
    rewrite reverse_cons. by destruct (reverse l). }
  destruct (closed d) as [|q k] eqn:Hk; [by apply closed_nonempty in Hk|].
  rewrite shoelace_total_cons, <- Hk, ring_sum_closed. f_equal.
  subst d. pose proof (ring_sum_reverse (p :: l)) as Hrev.
  destruct (bool_decide (_ ≠ w)) eqn:Hkeep.
  - apply bool_decide_eq_true in Hkeep.
    destruct w; case_bool_decide; try lia; naive_solver.
  - apply bool_decide_eq_false in Hkeep. rewrite Hrev.
    destruct w; case_bool_decide; try lia; naive_solver.
Qed.

(** ** More on the path of a polygon *)

Section polygon_path_more.
Implicit Types (r : list point) (d rs : list (list point)) (p : path).

Lemma mapM_result_inv {A B} (f : A → result B) (l : list A) (k : list B) :
  mapM f l = Ok k → Forall2 (λ x y, f x = Ok y) l k.
Proof.
  revert k. induction l as [|x l IH]; intros k.
  - intros [= <-]. constructor.
  - simpl. destruct (f x) as [y|e] eqn:Hx; [|done]. simpl.
    destruct (mapM f l) as [k'|e] eqn:Hl; [|done]. simpl.
    intros [= <-]. constructor; [done|]. by apply IH.
Qed.

Lemma mapM_result_raise {A B} (f : A → result B) (l : list A) (e : exn) :
  mapM f l = Raise e → ∃ x, x ∈ l ∧ f x = Raise e.
Proof.
  induction l as [|x l IH]; [done|].
  simpl. destruct (f x) as [y|e'] eqn:Hx.
  - simpl. destruct (mapM f l) as [k'|e'] eqn:Hl; [done|]. simpl.
    intros [= ->]. destruct IH as (x' & Hin & Hx'); [done|].
    exists x'. split; [by right|done].
  - simpl. intros [= ->]. exists x. split; [by left|done].
Qed.

Lemma order_vertices_raise r w e :
  _order_vertices r w = Raise e → r = [] ∧ e = IndexError.
Proof.
  destruct r as [|q l]; [by intros [= <-]|].
  by rewrite order_vertices_cons.
Qed.

Lemma codes_raise r e : _codes r = Raise e → r = [] ∧ e = IndexError.
Proof.
  destruct r as [|q l]; [by intros [= <-]|].
  by rewrite codes_nonempty.
Qed.

(** What a successful [polygon_path] is made of: the rings as
    [_order_vertices] returns them, outer ring first. *)
Lemma polygon_path_inv d p :
  polygon_path d = Ok p →
  ∃ rs, Forall2 (λ r r', ∃ w, _order_vertices r w = Ok r') d rs ∧
        Forall (λ r', r' ≠ []) rs ∧
        d ≠ [] ∧
        p = Path (concat rs) (concat (ring_codes <$> rs)).
Proof.
  destruct d as [|d0 ds]; [done|]. unfold polygon_path.
  destruct (_order_vertices d0 true) as [outer|] eqn:Ho; [|done]. simpl.
  destruct (mapM _ ds) as [inner|] eqn:Hi; [|done]. simpl.
  apply mapM_result_inv in Hi.
  assert (Forall (λ r', r' ≠ []) (outer :: inner)) as Hne.
  { constructor; [by apply order_vertices_Ok_nonempty in Ho as [_ ?]|].
    clear -Hi. induction Hi as [|h h' hs hs' Hh _ IH]; constructor; [|done].
    by apply order_vertices_Ok_nonempty in Hh as [_ ?]. }
  apply Forall_cons_1 in Hne as Hne'. destruct Hne' as [Hne0 Hnei].
  rewrite (codes_nonempty outer Hne0). simpl.
  rewrite (mapM_result_Ok _codes inner (ring_codes <$> inner)).
  2:{ clear -Hnei. induction Hnei as [|h hs Hh _ IH]; constructor; [|done].
      by apply codes_nonempty. }
  simpl. intros [= <-]. exists (outer :: inner).
  split; [|done]. constructor; [by exists true|].
  clear -Hi. induction Hi; constructor; [by exists false|done].
Qed.

Lemma polygon_path_raise d e : polygon_path d = Raise e → e = IndexError.
Proof.
  destruct d as [|d0 ds]; [by intros [= <-]|].
  unfold polygon_path.
  destruct (_order_vertices d0 true) as [outer|e0] eqn:Ho.
  2:{ simpl. intros [= <-]. by apply order_vertices_raise in Ho as [_ ->]. }
  simpl. destruct (mapM _ ds) as [inner|e1] eqn:Hi.
  2:{ simpl. intros [= <-].
      apply mapM_result_raise in Hi as (x & _ & Hx).
      by apply order_vertices_raise in Hx as [_ ->]. }
  simpl. destruct (_codes outer) as [co|e2] eqn:Hco.
  2:{ simpl. intros [= <-]. by apply codes_raise in Hco as [_ ->]. }
  simpl. destruct (mapM _codes inner) as [ci|e3] eqn:Hci; [done|].
  simpl. intros [= <-].
  apply mapM_result_raise in Hci as (x & _ & Hx).
  by apply codes_raise in Hx as [_ ->].
Qed.

(** A polygon with no ring, or with an empty ring, has no path. *)
Lemma polygon_path_bad d :
  d = [] ∨ [] ∈ d → polygon_path d = Raise IndexError.
Proof.
  intros Hbad. destruct (polygon_path d) as [p|e] eqn:Hp.
  - apply polygon_path_inv in Hp as (rs & Hrs & _ & Hne & _).
    destruct Hbad as [->|Hin]; [done|]. exfalso.
    clear -Hrs Hin. induction Hrs as [|r r' d rs [w Hr] _ IH].
    + by apply elem_of_nil in Hin.
    + apply elem_of_cons in Hin as [<-|Hin]; [done|by apply IH].
  - f_equal. by apply polygon_path_raise in Hp.
Qed.

Lemma count_moveto_ring_codes r :
  length (filter (λ c, c = MOVETO) (ring_codes r)) = 1%nat.
Proof.
  unfold ring_codes. rewrite filter_cons_True by done. simpl. f_equal.
  induction (length r - 1)%nat as [|n IH]; [done|].
  simpl. by rewrite filter_cons_False.
Qed.
End polygon_path_more.

(** X8.  The path of a polygon is built exactly when the polygon has at
    least one ring and no ring is empty; otherwise the call raises, and
    the only exception it raises is [IndexError]. *)
Theorem polygon_path_fails_iff (d : list (list point)) :
  ((∃ p, polygon_path d = Ok p) ↔ d ≠ [] ∧ Forall (λ r, r ≠ []) d) ∧
  (∀ e, polygon_path d = Raise e → e = IndexError).
Proof.
  split; [split|].
  - intros [p (rs & Hrs & _ & Hd & _)%polygon_path_inv]. split; [done|].
    clear -Hrs. induction Hrs as [|r r' d rs [w Hr] _ IH]; constructor; [|done].
    by apply order_vertices_Ok_nonempty in Hr as [? _].
  - intros [Hd Hr]. by apply polygon_path_returns.
  - apply polygon_path_raise.
Qed.

(** X9.  In the path of a polygon the code buffer is as long as the
    vertex buffer, starts with [MOVETO], and holds one [MOVETO] for each
    ring of the polygon; the vertex buffer holds every ring's points and
    at most one closing point more for each ring. *)
Theorem polygon_path_counts (d : list (list point)) (p : path) :
  polygon_path d = Ok p →
  length (codes p) = length (vertices p) ∧
  head (codes p) = Some MOVETO ∧
  length (filter (λ c, c = MOVETO) (codes p)) = length d ∧
  (length (concat d) ≤ length (vertices p) ≤ length (concat d) + length d)%nat.
Proof.
  intros (rs & Hrs & Hne & Hd & ->)%polygon_path_inv. simpl.
  split; [|split; [|split]].
  - clear -Hne. induction Hne as [|r rs Hr _ IH]; [done|].
    rewrite fmap_cons. cbn [concat].
    by rewrite !length_app, (length_ring_codes _ Hr), IH.
  - destruct Hrs as [|r r' d rs _ _]; [done|]. done.
  - clear -Hrs. induction Hrs as [|r r' d rs _ _ IH]; [done|].
    rewrite fmap_cons. cbn [concat].
    rewrite filter_app, length_app, count_moveto_ring_codes, IH. done.
  - clear -Hrs. induction Hrs as [|r r' d rs [w Hr] _ IH]; [simpl; lia|].
    cbn [concat]. rewrite !length_app. simpl length.
    destruct r as [|q l]; [done|].
    destruct (order_vertices_shape q l w) as (r0 & Hr0 & _ & Hlen & _).
    rewrite Hr in Hr0. injection Hr0 as <-. lia.
Qed.

Lemma polygon_path_counts_witness :
  let d : list (list point) :=
    [[(0, 0); (0, 4); (4, 4); (4, 0)]; [(1, 1); (1, 2); (2, 2); (2, 1)]] in
  let p := Path [(4, 0); (4, 4); (0, 4); (0, 0); (4, 0);
                 (1, 1); (1, 2); (2, 2); (2, 1); (1, 1)]
                [MOVETO; LINETO; LINETO; LINETO; LINETO;
                 MOVETO; LINETO; LINETO; LINETO; LINETO] in
  polygon_path d = Ok p ∧
  length (codes p) = length (vertices p) ∧
  head (codes p) = Some MOVETO ∧
  length (filter (λ c, c = MOVETO) (codes p)) = length d ∧
  (length (concat d) ≤ length (vertices p) ≤ length (concat d) + length d)%nat.
Proof.
  intros d p. split; [reflexivity|].
  apply (polygon_path_counts d p). reflexivity.
Defined.

(** ** More on the layer registry *)

Section registry_more.
Implicit Types (s : plotter) (n : name) (g : ref) (l gs : list ref).

Lemma show_absent s n : _graphics s !! n = None → show n s = (Ok (), s).
Proof.
  intros Hn. unfold show, try_except, graphics_get.
  unfold mbind, M_bind. by rewrite Hn.
Qed.

Lemma remove_absent s n : _graphics s !! n = None → remove n s = (Ok (), s).
Proof.
  intros Hn. unfold remove, try_except. unfold mbind at 1, M_bind at 1.
  rewrite (hide_absent _ _ Hn). unfold graphics_del. by rewrite Hn.
Qed.

Lemma list_remove_absent g l : g ∉ l → list_remove g l = None.
Proof.
  induction l as [|y l IH]; [done|].
  intros [Hne Hg]%not_elem_of_cons. simpl.
  rewrite decide_False by done. by rewrite IH.
Qed.

Lemma list_remove_app_r g l k :
  g ∉ l → list_remove g (l ++ g :: k) = Some (l ++ k).
Proof.
  induction l as [|y l IH]; intros Hg.
  - simpl. by rewrite decide_True.
  - apply not_elem_of_cons in Hg as [Hne Hg]. simpl.
    rewrite decide_False by done. by rewrite IH.
Qed.

Lemma with_lines_same s : with_lines (λ _, lines s) s = s.
Proof. by destruct s. Qed.

Lemma with_patches_same s : with_patches (λ _, patches s) s = s.
Proof. by destruct s. Qed.

(** The loop of [hide] undoes the loop of [show] on primitives that
    were not attached before. *)
Lemma for_each_lines_remove_added gs l s :
  Forall (λ g, g ∉ l) gs →
  for_each gs lines_remove (with_lines (λ _, l ++ gs) s)
  = (Ok (), with_lines (λ _, l) s).
Proof.
  revert s. induction gs as [|g gs IH]; intros s Hgs.
  - simpl. rewrite app_nil_r. done.
  - apply Forall_cons_1 in Hgs as [Hg Hgs]. simpl.
    unfold mbind, M_bind. unfold lines_remove at 1. simpl lines.
    rewrite (list_remove_app_r g l gs Hg).
    rewrite <- (IH s Hgs). by destruct s.
Qed.

Lemma for_each_patches_remove_added gs l s :
  Forall (λ g, g ∉ l) gs →
  for_each gs patches_remove (with_patches (λ _, l ++ gs) s)
  = (Ok (), with_patches (λ _, l) s).
Proof.
  revert s. induction gs as [|g gs IH]; intros s Hgs.
  - simpl. rewrite app_nil_r. done.
  - apply Forall_cons_1 in Hgs as [Hg Hgs]. simpl.
    unfold mbind, M_bind. unfold patches_remove at 1. simpl patches.
    rewrite (list_remove_app_r g l gs Hg).
    rewrite <- (IH s Hgs). by destruct s.
Qed.
End registry_more.

(** X10.  [remove] on a layer that is present and not empty returns
    normally, deletes the entry of that name and no other, and leaves
    the artists as they are; after it the name is unknown, so [hide],
    [show] and a second [remove] of it do nothing. *)
Theorem remove_deletes_layer (s : plotter) (n : name) (g : ref)
    (gs : list ref) :
  _graphics s !! n = Some (g :: gs) →
  ∃ s', remove n s = (Ok (), s') ∧
        _graphics s' = delete n (_graphics s) ∧
        objects s' = objects s ∧
        hide n s' = (Ok (), s') ∧
        show n s' = (Ok (), s') ∧
        remove n s' = (Ok (), s').
Proof.
  intros Hn. destruct (hide_returns _ _ _ _ Hn) as (s1 & Hhide & Hgr & Hobj).
  exists (with_graphics (delete n) s1).
  assert (_graphics (with_graphics (delete n) s1) !! n = None) as Habs.
  { simpl. apply lookup_delete_eq. }
  split; [|split; [by simpl; rewrite Hgr|split; [done|]]].
  - unfold remove, try_except. unfold mbind at 1, M_bind at 1.
    rewrite Hhide. unfold graphics_del. by rewrite Hgr, Hn.
  - split; [by apply hide_absent|].
    split; [by apply show_absent|by apply remove_absent].
Qed.

Lemma remove_deletes_layer_witness :
  _graphics mixed_session !! NStr "sites" = Some [0; 1]%nat ∧
  ∃ s', remove (NStr "sites") mixed_session = (Ok (), s') ∧
        _graphics s' = delete (NStr "sites") (_graphics mixed_session) ∧
        objects s' = objects mixed_session ∧
        hide (NStr "sites") s' = (Ok (), s') ∧
        show (NStr "sites") s' = (Ok (), s') ∧
        remove (NStr "sites") s' = (Ok (), s').
Proof.
  split; [reflexivity|].
  apply (remove_deletes_layer mixed_session (NStr "sites") 0%nat [1%nat]).
  reflexivity.
Defined.

(** X11.  A layer that holds no primitive cannot be hidden, shown or
    removed: each of the three calls raises [IndexError] out of
    [graphics[0]], and the session, the registry entry included, stays
    as it was. *)
Theorem empty_layer_raises (s : plotter) (n : name) :
  _graphics s !! n = Some [] →
  hide n s = (Raise IndexError, s) ∧
  show n s = (Raise IndexError, s) ∧
  remove n s = (Raise IndexError, s).
Proof.
  intros Hn. split; [by apply hide_empty|]. split; [by apply show_empty|].
  unfold remove, try_except. unfold mbind at 1, M_bind at 1.
  by rewrite (hide_empty _ _ Hn).
Qed.

Lemma empty_layer_raises_witness :
  _graphics empty_layer_session !! NStr "none" = Some [] ∧
  hide (NStr "none") empty_layer_session
    = (Raise IndexError, empty_layer_session) ∧
  show (NStr "none") empty_layer_session
    = (Raise IndexError, empty_layer_session) ∧
  remove (NStr "none") empty_layer_session
    = (Raise IndexError, empty_layer_session).
Proof.
  split; [reflexivity|].
  apply (empty_layer_raises empty_layer_session (NStr "none")). reflexivity.
Defined.

(** X12.  [hide] on a layer that is hidden already does nothing: when
    the first primitive of the layer is not in the axes list its class
    selects, the first [remove] raises [ValueError], the handler
    swallows it, and the session is unchanged. *)
Theorem hide_hidden_is_noop (s : plotter) (n : name) (g : ref)
    (gs : list ref) :
  _graphics s !! n = Some (g :: gs) →
  (is_line s g ∧ g ∉ lines s) ∨ (is_patch s g ∧ g ∉ patches s) →
  hide n s = (Ok (), s).
Proof.
  intros Hn Hhidden. unfold hide, try_except, graphics_get.
  unfold mbind at 1, M_bind at 1. rewrite Hn, by_class_cons.
  destruct Hhidden as [[Hg Hout]|[Hg Hout]].
  - unfold is_line in Hg. rewrite Hg. simpl. unfold mbind, M_bind.
    unfold lines_remove at 1. by rewrite (list_remove_absent _ _ Hout).
  - unfold is_patch in Hg.
    destruct (type (objects s g)); [done|..]; simpl; unfold mbind, M_bind;
      unfold patches_remove at 1; by rewrite (list_remove_absent _ _ Hout).
Qed.

Lemma hide_hidden_is_noop_witness :
  let s := (hide (NStr "sites") mixed_session).2 in
  _graphics s !! NStr "sites" = Some [0; 1]%nat ∧
  ((is_line s 0%nat ∧ 0%nat ∉ lines s)
   ∨ (is_patch s 0%nat ∧ 0%nat ∉ patches s)) ∧
  hide (NStr "sites") s = (Ok (), s).
Proof.
  intros s.
  assert ((is_line s 0%nat ∧ 0%nat ∉ lines s)
          ∨ (is_patch s 0%nat ∧ 0%nat ∉ patches s)) as Hhidden.
  { left. split; [reflexivity|]. vm_compute. apply not_elem_of_nil. }
  split; [reflexivity|]. split; [exact Hhidden|].
  apply (hide_hidden_is_noop s (NStr "sites") 0%nat [1%nat]);
    [reflexivity | exact Hhidden].
Defined.

(** X13.  On a layer none of whose primitives is attached, [show]
    followed by [hide] is a round trip: the session ends exactly as it
    began.  The layer's primitives go to the axes list the class of the
    first one selects, and come off it again. *)
Theorem show_then_hide_round_trip (s : plotter) (n : name) (g : ref)
    (gs : list ref) :
  _graphics s !! n = Some (g :: gs) →
  (is_line s g ∧ Forall (λ x, x ∉ lines s) (g :: gs))
  ∨ (is_patch s g ∧ Forall (λ x, x ∉ patches s) (g :: gs)) →
  (show n ≫= λ _, hide n) s = (Ok (), s).
Proof.
  intros Hn Hout. unfold mbind at 1, M_bind at 1.
  rewrite (show_present _ _ _ _ Hn).
  destruct Hout as [[Hg Hout]|[Hg Hout]].
  - unfold is_line in Hg. rewrite Hg.
    unfold hide, try_except, graphics_get.
    unfold mbind at 1, M_bind at 1. simpl _graphics.
    rewrite Hn, by_class_cons. simpl objects. rewrite Hg.
    change (with_lines (λ l, l ++ g :: gs) s)
      with (with_lines (λ _, lines s ++ g :: gs) s).
    rewrite (for_each_lines_remove_added (g :: gs) (lines s) s Hout).
    by rewrite with_lines_same.
  - unfold is_patch in Hg.
    assert (hide n (with_patches (λ l, l ++ g :: gs) s) = (Ok (), s)) as Hhide.
    { unfold hide, try_except, graphics_get.
      unfold mbind at 1, M_bind at 1. simpl _graphics.
      rewrite Hn, by_class_cons. simpl objects.
      change (with_patches (λ l, l ++ g :: gs) s)
        with (with_patches (λ _, patches s ++ g :: gs) s).
      rewrite (for_each_patches_remove_added (g :: gs) (patches s) s Hout).
      rewrite with_patches_same. by destruct (type (objects s g)). }
    by destruct (type (objects s g)).
Qed.

Lemma show_then_hide_round_trip_witness :
  let s := with_graphics (<[NStr "roads" := [0; 1]%nat]>)
             (with_lines (λ _, [2%nat]) (SimpleVectorPlotter [])) in
  _graphics s !! NStr "roads" = Some [0; 1]%nat ∧
  ((is_line s 0%nat ∧ Forall (λ x, x ∉ lines s) [0; 1]%nat)
   ∨ (is_patch s 0%nat ∧ Forall (λ x, x ∉ patches s) [0; 1]%nat)) ∧
  (show (NStr "roads") ≫= λ _, hide (NStr "roads")) s = (Ok (), s).
Proof.
  intros s.
  assert ((is_line s 0%nat ∧ Forall (λ x, x ∉ lines s) [0; 1]%nat)
          ∨ (is_patch s 0%nat ∧ Forall (λ x, x ∉ patches s) [0; 1]%nat))
    as Hout.
  { left. split; [reflexivity|].
    repeat constructor; simpl; intros [?|?%elem_of_nil]%elem_of_cons; done. }
  split; [reflexivity|]. split; [exact Hout|].
  apply (show_then_hide_round_trip s (NStr "roads") 0%nat [1%nat]);
    [reflexivity | exact Hout].
Defined.

(** ** More on [_set_graphics] *)

Section set_graphics_more.
Implicit Types (s : plotter) (n : name) (g : ref) (gs : list ref).

(** The key [_set_graphics] files a layer under:
    [name or len(self._graphics)]. *)
Lemma set_graphics_absent s n gs has_symbol :
  let key := if truthy n then n else NInt (size (_graphics s)) in
  _graphics s !! key = None →
  _set_graphics gs n has_symbol s
  = (Ok (), with_graphics (<[key := gs]>) s).
Proof.
  intros key Hkey. unfold _set_graphics.
  unfold mbind at 1, M_bind at 1, get at 1. fold key.
  unfold mbind at 1, M_bind at 1, get at 1.
  unfold mbind at 1, M_bind at 1.
  rewrite Hkey. by rewrite bool_decide_eq_false_2 by (by intros [? ?]).
Qed.

Lemma set_graphics_explicit s n gs a0 A :
  let key := if truthy n then n else NInt (size (_graphics s)) in
  _graphics s !! key = Some (a0 :: A) →
  ∃ s1, hide key s = (Ok (), s1) ∧ same_registry s s1 ∧
        _set_graphics gs n true s
        = (Ok (), with_graphics (<[key := gs]>) s1).
Proof.
  intros key Hkey.
  destruct (hide_returns _ _ _ _ Hkey) as (s1 & Hhide & Hsame).
  exists s1. split; [done|]. split; [done|].
  unfold _set_graphics.
  unfold mbind at 1, M_bind at 1, get at 1. fold key.
  unfold mbind at 1, M_bind at 1, get at 1.
  rewrite Hkey. rewrite bool_decide_eq_true_2 by eauto.
  unfold mbind at 1, M_bind at 1.
  unfold mbind at 1, M_bind at 1. rewrite Hhide. by cbn.
Qed.
End set_graphics_more.

(** X14.  A layer set under a key the registry does not hold is filed
    as given, whatever its primitives and whether or not a style came
    with it: the registry grows by that one entry and the axes and the
    artists are untouched.  A layer given no name is filed under the
    number of layers the registry held before. *)
Theorem set_graphics_new_layer (s : plotter) (n : name) (gs : list ref)
    (has_symbol : bool) :
  let key := if truthy n then n else NInt (size (_graphics s)) in
  _graphics s !! key = None →
  ∃ s', _set_graphics gs n has_symbol s = (Ok (), s') ∧
        _graphics s' = <[key := gs]> (_graphics s) ∧
        size (_graphics s') = S (size (_graphics s)) ∧
        lines s' = lines s ∧ patches s' = patches s ∧
        objects s' = objects s.
Proof.
  intros key Hkey. eexists. split; [by apply set_graphics_absent|].
  split; [done|]. split; [|done]. simpl. by apply map_size_insert_None.
Qed.

Lemma set_graphics_new_layer_witness :
  let s := mixed_session in
  let key := if truthy (NStr "") then NStr "" else NInt (size (_graphics s)) in
  _graphics s !! key = None ∧
  ∃ s', _set_graphics [2%nat] (NStr "") false s = (Ok (), s') ∧
        _graphics s' = <[key := [2%nat]]> (_graphics s) ∧
        size (_graphics s') = S (size (_graphics s)) ∧
        lines s' = lines s ∧ patches s' = patches s ∧
        objects s' = objects s.
Proof.
  intros s key. split; [reflexivity|].
  apply (set_graphics_new_layer mixed_session (NStr "") [2%nat] false).
  reflexivity.
Defined.

(** X15.  A layer set with an explicit style over a layer that is
    present and not empty replaces it without restyling: the call
    returns normally, only the entry of that key changes, and every
    artist keeps the drawing properties it had. *)
Theorem set_graphics_explicit_style (s : plotter) (n : name) (gs : list ref)
    (a0 : ref) (A : list ref) :
  let key := if truthy n then n else NInt (size (_graphics s)) in
  _graphics s !! key = Some (a0 :: A) →
  ∃ s', _set_graphics gs n true s = (Ok (), s') ∧
        _graphics s' = <[key := gs]> (_graphics s) ∧
        size (_graphics s') = size (_graphics s) ∧
        objects s' = objects s.
Proof.
  intros key Hkey.
  destruct (set_graphics_explicit s n gs a0 A Hkey)
    as (s1 & _ & [Hgr Hobj] & Hset).
  eexists. split; [exact Hset|]. simpl. rewrite Hgr.
  split; [done|]. split; [|done].
  apply map_size_insert_Some. by exists (a0 :: A).
Qed.

Lemma set_graphics_explicit_style_witness :
  let s := mixed_session in
  let key := if truthy (NStr "sites") then NStr "sites"
             else NInt (size (_graphics s)) in
  _graphics s !! key = Some [0; 1]%nat ∧
  ∃ s', _set_graphics [2%nat] (NStr "sites") true s = (Ok (), s') ∧
        _graphics s' = <[key := [2%nat]]> (_graphics s) ∧
        size (_graphics s') = size (_graphics s) ∧
        objects s' = objects s.
Proof.
  intros s key. split; [reflexivity|].
  apply (set_graphics_explicit_style mixed_session (NStr "sites") [2%nat]
                                     0%nat [1%nat]).
  reflexivity.
Defined.

(** X16.  The number given to an unnamed layer can be taken already:
    when the registry holds a layer with at least one primitive under
    the number of its entries (as it does once an earlier unnamed layer
    has been removed), a new unnamed layer that comes with a style of
    its own ([has_symbol] true) is filed over it.  The call returns, the
    registry does not grow and the layer that was there can no longer
    be reached. *)
Theorem unnamed_layer_overwrites (s : plotter) (gs : list ref) (a0 : ref)
    (A : list ref) :
  _graphics s !! NInt (size (_graphics s)) = Some (a0 :: A) →
  ∃ s', _set_graphics gs (NStr "") true s = (Ok (), s') ∧
        _graphics s' !! NInt (size (_graphics s)) = Some gs ∧
        size (_graphics s') = size (_graphics s).
Proof.
  intros Hkey.
  destruct (set_graphics_explicit s (NStr "") gs a0 A Hkey)
    as (s1 & _ & [Hgr Hobj] & Hset).
  eexists. split; [exact Hset|]. simpl. rewrite Hgr.
  split; [by rewrite lookup_insert_eq|].
  apply map_size_insert_Some. by exists (a0 :: A).
Qed.

Lemma unnamed_layer_overwrites_witness :
  let s0 := SimpleVectorPlotter [{[ "color" := "b" ]}] in
  let s1 := (plot_polygon [[(0, 0); (4, 0); (0, 4)]] "r" "" ∅ s0).2 in
  let s2 := (plot_polygon [[(1, 1); (3, 1); (1, 3)]] "g" "" ∅ s1).2 in
  let s := (remove (NInt 0) s2).2 in
  _graphics s !! NInt (size (_graphics s)) = Some [1%nat] ∧
  ∃ s', _set_graphics [2%nat] (NStr "") true s = (Ok (), s') ∧
        _graphics s' !! NInt (size (_graphics s)) = Some [2%nat] ∧
        size (_graphics s') = size (_graphics s).
Proof.
  intros s0 s1 s2 s.
  assert (_graphics s !! NInt (size (_graphics s)) = Some [1%nat]) as Hkey
    by (vm_compute; reflexivity).
  split; [exact Hkey|].
  apply (unnamed_layer_overwrites s [2%nat] 1%nat []). exact Hkey.
Defined.

(** X17.  A layer set without a style and without primitives over a
    layer that is present and not empty is refused: the old layer is
    hidden first, then [graphics[0]] raises [IndexError], and the
    registry still holds the old layer. *)
Theorem set_graphics_empty_raises (s : plotter) (n : name) (a0 : ref)
    (A : list ref) :
  truthy n = true →
  _graphics s !! n = Some (a0 :: A) →
  ∃ s1, hide n s = (Ok (), s1) ∧
        _set_graphics [] n false s = (Raise IndexError, s1) ∧
        _graphics s1 = _graphics s.
Proof.
  intros Ht Hn.
  destruct (hide_returns _ _ _ _ Hn) as (s1 & Hhide & Hgr & Hobj).
  exists s1. split; [done|]. split; [|done].
  unfold _set_graphics. rewrite Ht.
  unfold mbind at 1, M_bind at 1, get at 1.
  unfold mbind at 1, M_bind at 1, get at 1.
  rewrite Hn. rewrite bool_decide_eq_true_2 by eauto.
  unfold mbind at 1, M_bind at 1.
  unfold mbind at 1, M_bind at 1. rewrite Hhide. by cbn.
Qed.

Lemma set_graphics_empty_raises_witness :
  truthy (NStr "sites") = true ∧
  _graphics mixed_session !! NStr "sites" = Some [0; 1]%nat ∧
  ∃ s1, hide (NStr "sites") mixed_session = (Ok (), s1) ∧
        _set_graphics [] (NStr "sites") false mixed_session
        = (Raise IndexError, s1) ∧
        _graphics s1 = _graphics mixed_session.
Proof.
  split; [reflexivity|]. split; [reflexivity|].
  apply (set_graphics_empty_raises mixed_session (NStr "sites") 0%nat [1%nat]);
    reflexivity.
Defined.

(** ** More on [_same_type] *)

(** X18.  [_same_type] does not depend on the order of its arguments:
    it returns the same answer, or raises the same exception, either
    way round. *)
Theorem same_type_symmetric (a b : artist) :
  _same_type a b = _same_type b a.
Proof.
  destruct a as [[x1 y1|xy1|p1] st1], b as [[x2 y2|xy2|p2] st2];
    try reflexivity.
  rewrite !same_type_lines. f_equal.
  repeat case_bool_decide; try done; lia.
Qed.

(** X19.  On stroked paths [_same_type] never raises and sorts them
    into three kinds by point count: no point, one point, two or more.
    Two lines are compatible exactly when they are of the same kind, so
    on lines compatibility is reflexive, symmetric and transitive. *)
Theorem same_type_lines_by_count (x1 y1 x2 y2 : list Z) (st1 st2 : style) :
  _same_type (Artist (LineShape x1 y1) st1) (Artist (LineShape x2 y2) st2)
  = Ok (bool_decide (Nat.min 2 (length x1) = Nat.min 2 (length x2))).
Proof.
  rewrite same_type_lines. f_equal.
  repeat case_bool_decide; try done; lia.
Qed.

(** ** More on the colour rotation *)

(** X20.  With an empty palette [_next_color] raises [IndexError], and
    the cursor is left at 0. *)
Theorem next_color_empty_palette (s : plotter) :
  colors s = [] → -1 <= current_color s →
  _next_color_new s = (Raise IndexError, with_current_color 0 s).
Proof.
  intros Hcolors Hcur. unfold _next_color_new.
  unfold mbind, M_bind, modify, get, lift. simpl. rewrite Hcolors. simpl.
  rewrite bool_decide_eq_true_2 by lia. simpl. rewrite Hcolors.
  by destruct s.
Qed.

Lemma next_color_empty_palette_witness :
  colors (SimpleVectorPlotter []) = [] ∧
  -1 <= current_color (SimpleVectorPlotter []) ∧
  _next_color_new (SimpleVectorPlotter [])
  = (Raise IndexError, with_current_color 0 (SimpleVectorPlotter [])).
Proof.
  split; [reflexivity|]. split; [simpl; lia|].
  apply (next_color_empty_palette (SimpleVectorPlotter []));
    [reflexivity | simpl; lia].
Defined.

(** X21.  With a palette that is not empty and a cursor between -1 and
    the last index, [_next_color] moves the cursor one entry on, back
    to 0 after the last, and touches nothing else of the session.  It
    returns the ['color'] of the entry the cursor is now on, or raises
    [KeyError] when that entry has none; either way the cursor stays
    within the palette. *)
Theorem next_color_moves_cursor (s : plotter) :
  colors s ≠ [] →
  -1 <= current_color s < Z.of_nat (length (colors s)) →
  let i := (current_color s + 1) `mod` Z.of_nat (length (colors s)) in
  0 <= i < Z.of_nat (length (colors s)) ∧
  ∃ entry,
    colors s !! Z.to_nat i = Some entry ∧
    _next_color_new s
    = (match entry !! "color" with
       | Some c => Ok c
       | None => Raise KeyError
       end, with_current_color i s).
Proof.
  intros Hne Hcur i.
  assert (0 < Z.of_nat (length (colors s))) as Hpos
    by (destruct (colors s); [done|simpl length; lia]).
  assert (0 <= i < Z.of_nat (length (colors s))) as Hi
    by (apply Z.mod_pos_bound; lia).
  split; [done|].
  destruct (lookup_lt_is_Some_2 (colors s) (Z.to_nat i)) as [entry He]; [lia|].
  exists entry. split; [done|].
  assert (i = if bool_decide (current_color s + 1
                              >= Z.of_nat (length (colors s)))
              then 0 else current_color s + 1) as Hiz.
  { subst i. case_bool_decide.
    - replace (current_color s + 1) with (Z.of_nat (length (colors s))) by lia.
      apply Z_mod_same_full.
    - apply Z.mod_small. lia. }
  unfold _next_color_new.
  unfold mbind, M_bind, modify, get, lift, mret, M_ret, raise. simpl.
  rewrite Hiz in He |- *.
  case_bool_decide; simpl; rewrite py_index_nonneg by lia; rewrite He;
    destruct (entry !! "color"); by destruct s.
Qed.

Lemma next_color_moves_cursor_witness :
  let s := with_current_color 1
             (SimpleVectorPlotter [{[ "color" := "b" ]}; {[ "lw" := "2" ]}]) in
  colors s ≠ [] ∧
  -1 <= current_color s < Z.of_nat (length (colors s)) ∧
  let i := (current_color s + 1) `mod` Z.of_nat (length (colors s)) in
  0 <= i < Z.of_nat (length (colors s)) ∧
  ∃ entry,
    colors s !! Z.to_nat i = Some entry ∧
    _next_color_new s
    = (match entry !! "color" with
       | Some c => Ok c
       | None => Raise KeyError
       end, with_current_color i s).
Proof.
  intros s.
  assert (-1 <= current_color s < Z.of_nat (length (colors s))) as Hcur
    by (simpl; lia).
  split; [discriminate|]. split; [exact Hcur|].
  apply (next_color_moves_cursor s); [discriminate | exact Hcur].
Defined.

(** ** Drawing multipolygons *)

Section multipolygon.
Implicit Types (s : plotter) (d : list (list point)) (kwargs : style)
  (data : list (list (list point))).

Lemma plot_polygon_patch_Ok s d kwargs p :
  polygon_path d = Ok p →
  _plot_polygon d kwargs s =
  (Ok [next_ref s],
   with_patches (λ l, l ++ [next_ref s])
     (with_objects (<[next_ref s := Artist (PathShape p) kwargs]>)
        (with_next_ref (S (next_ref s)) s))).
Proof.
  intros Hp. unfold _plot_polygon. unfold mbind at 1, M_bind at 1, lift at 1.
  rewrite Hp. by destruct s.
Qed.

Lemma plot_polygon_patch_Raise s d kwargs e :
  polygon_path d = Raise e → _plot_polygon d kwargs s = (Raise e, s).
Proof.
  intros Hp. unfold _plot_polygon. unfold mbind at 1, M_bind at 1, lift at 1.
  by rewrite Hp.
Qed.

(** The loop of [_plot_multipolygon] over polygons that can all be
    drawn: one new patch for each, numbered on from [next_ref]. *)
Lemma multipolygon_loop_Ok data kwargs graphics s :
  Forall (λ d, d ≠ [] ∧ Forall (λ r, r ≠ []) d) data →
  ∃ s',
    multipolygon_loop data kwargs graphics s
    = (Ok (graphics ++ seq (next_ref s) (length data)), s') ∧
    patches s' = patches s ++ seq (next_ref s) (length data) ∧
    next_ref s' = (next_ref s + length data)%nat ∧
    lines s' = lines s ∧ _graphics s' = _graphics s ∧
    colors s' = colors s ∧ current_color s' = current_color s ∧
    (∀ r, (r < next_ref s)%nat → objects s' r = objects s r) ∧
    (∀ r, (next_ref s ≤ r < next_ref s + length data)%nat →
          artist_style (objects s' r) = kwargs
          ∧ type (objects s' r) = PathPatch).
Proof.
  revert graphics s. induction data as [|d data IH]; intros graphics s Hdata.
  - exists s. simpl. rewrite !app_nil_r, Nat.add_0_r.
    do 7 (split; [done|]). split; [done|]. intros r Hr. lia.
  - apply Forall_cons_1 in Hdata as [[Hd Hr] Hdata].
    destruct (polygon_path_returns d Hd Hr) as [p Hp].
    simpl. unfold mbind at 1, M_bind at 1.
    rewrite (plot_polygon_patch_Ok s d kwargs p Hp).
    set (s1 := with_patches _ _).
    destruct (IH (graphics ++ [next_ref s]) s1 Hdata)
      as (s' & Hrun & Hpatches & Hnext & Hlines & Hgr & Hcol & Hcur
          & Hold & Hnew).
    exists s'. rewrite Hrun. simpl in *.
    split; [by rewrite <- (assoc_L (++))|].
    split; [by rewrite Hpatches, <- (assoc_L (++))|].
    split; [lia|]. do 4 (split; [done|]). split.
    + intros r Hr'. rewrite Hold by lia.
      by rewrite fn_lookup_insert_ne by lia.
    + intros r Hr'. destruct (decide (r = next_ref s)) as [->|Hne].
      * rewrite Hold by lia. by rewrite fn_lookup_insert.
      * apply Hnew. lia.
Qed.
End multipolygon.

(** X22.  [_plot_multipolygon] on polygons that can all be drawn (each
    has a ring and no empty ring) returns one new primitive for each
    polygon, in order.  Each is a filled path with the drawing
    properties given, attached after the patches already on the axes;
    artists that existed before, the registry and the palette are not
    touched. *)
Theorem plot_multipolygon_one_patch_each (s : plotter)
    (data : list (list (list point))) (kwargs : style) :
  Forall (λ d, d ≠ [] ∧ Forall (λ r, r ≠ []) d) data →
  ∃ s',
    _plot_multipolygon data kwargs s
    = (Ok (seq (next_ref s) (length data)), s') ∧
    patches s' = patches s ++ seq (next_ref s) (length data) ∧
    lines s' = lines s ∧ _graphics s' = _graphics s ∧
    colors s' = colors s ∧ current_color s' = current_color s ∧
    (∀ r, (r < next_ref s)%nat → objects s' r = objects s r) ∧
    (∀ r, r ∈ seq (next_ref s) (length data) →
          artist_style (objects s' r) = kwargs
          ∧ type (objects s' r) = PathPatch).
Proof.
  intros Hdata.
  destruct (multipolygon_loop_Ok data kwargs [] s Hdata)
    as (s' & Hrun & Hpatches & _ & Hlines & Hgr & Hcol & Hcur & Hold & Hnew).
  exists s'. unfold _plot_multipolygon. rewrite Hrun.
  do 6 (split; [done|]). split; [done|].
  intros r Hr%elem_of_seq. apply Hnew. lia.
Qed.

Lemma plot_multipolygon_one_patch_each_witness :
  let data : list (list (list point)) :=
    [[[(0, 0); (4, 0); (0, 4)]]; [[(5, 5); (6, 5); (5, 6)]]] in
  let s := SimpleVectorPlotter [] in
  let kwargs : style := {[ "fc" := "r" ]} in
  Forall (λ d : list (list point), d ≠ [] ∧ Forall (λ r, r ≠ []) d) data ∧
  ∃ s',
    _plot_multipolygon data kwargs s
    = (Ok (seq (next_ref s) (length data)), s') ∧
    patches s' = patches s ++ seq (next_ref s) (length data) ∧
    lines s' = lines s ∧ _graphics s' = _graphics s ∧
    colors s' = colors s ∧ current_color s' = current_color s ∧
    (∀ r, (r < next_ref s)%nat → objects s' r = objects s r) ∧
    (∀ r, r ∈ seq (next_ref s) (length data) →
          artist_style (objects s' r) = kwargs
          ∧ type (objects s' r) = PathPatch).
Proof.
  intros data s kwargs.
  assert (Forall (λ d : list (list point), d ≠ [] ∧ Forall (λ r, r ≠ []) d)
                 data) as Hdata.
  { repeat constructor; discriminate. }
  split; [exact Hdata|].
  apply (plot_multipolygon_one_patch_each s data kwargs). exact Hdata.
Defined.

(** X23.  When one polygon of a multipolygon cannot be drawn (it has no
    ring, or an empty ring), [_plot_multipolygon] raises [IndexError]
    at that polygon and returns no primitives, but the patches of the
    polygons before it have been created and stay attached to the
    axes. *)
Theorem plot_multipolygon_partial (s : plotter)
    (good : list (list (list point))) (bad : list (list point))
    (rest : list (list (list point))) (kwargs : style) :
  Forall (λ d, d ≠ [] ∧ Forall (λ r, r ≠ []) d) good →
  bad = [] ∨ [] ∈ bad →
  ∃ s',
    _plot_multipolygon (good ++ bad :: rest) kwargs s
    = (Raise IndexError, s') ∧
    patches s' = patches s ++ seq (next_ref s) (length good) ∧
    _graphics s' = _graphics s.
Proof.
  intros Hgood Hbad. unfold _plot_multipolygon.
  pose proof (polygon_path_bad bad Hbad) as Hfail.
  generalize (@nil ref) as graphics. revert s.
  induction good as [|d good IH]; intros s graphics.
  - exists s. simpl. unfold mbind, M_bind.
    rewrite (plot_polygon_patch_Raise _ _ _ _ Hfail).
    by rewrite app_nil_r.
  - apply Forall_cons_1 in Hgood as [[Hd Hr] Hgood].
    destruct (polygon_path_returns d Hd Hr) as [p Hp].
    simpl. unfold mbind at 1, M_bind at 1.
    rewrite (plot_polygon_patch_Ok s d kwargs p Hp).
    set (s1 := with_patches _ _).
    destruct (IH Hgood s1 (graphics ++ [next_ref s])) as (s' & Hrun & Hpatches & Hgr).
    exists s'. split; [done|]. simpl in *.
    split; [by rewrite Hpatches, <- (assoc_L (++))|done].
Qed.

Lemma plot_multipolygon_partial_witness :
  let good : list (list (list point)) := [[[(0, 0); (4, 0); (0, 4)]]] in
  let bad : list (list point) := [[(5, 5); (6, 5); (5, 6)]; []] in
  let s := SimpleVectorPlotter [] in
  Forall (λ d : list (list point), d ≠ [] ∧ Forall (λ r, r ≠ []) d) good ∧
  (bad = [] ∨ [] ∈ bad) ∧
  ∃ s',
    _plot_multipolygon (good ++ bad :: []) ∅ s = (Raise IndexError, s') ∧
    patches s' = patches s ++ seq (next_ref s) (length good) ∧
    _graphics s' = _graphics s.
Proof.
  intros good bad s.
  assert (Forall (λ d : list (list point), d ≠ [] ∧ Forall (λ r, r ≠ []) d)
                 good) as Hgood.
  { repeat constructor; discriminate. }
  assert (bad = [] ∨ [] ∈ bad) as Hbad.
  { right. right. left. }
  split; [exact Hgood|]. split; [exact Hbad|].
  apply (plot_multipolygon_partial s good bad [] ∅); [exact Hgood | exact Hbad].
Defined.

(** ** What drawing does to the palette *)

Section frames.
Implicit Types (s : plotter) (n : name) (g : ref) (gs : list ref).

Lemma for_each_lines_remove_axes gs s :
  ∃ r s', for_each gs lines_remove s = (r, s')
          ∧ (r = Ok () ∨ r = Raise ValueError) ∧ only_axes_differ s s'.
Proof.
  revert s. induction gs as [|g gs IH]; intros s.
  - exists (Ok ()), s. by repeat split; auto.
  - simpl. unfold mbind, M_bind. unfold lines_remove at 1.
    destruct (list_remove g (lines s)) as [l|].
    + destruct (IH (with_lines (λ _, l) s)) as (r & s' & -> & Hr & Hs').
      by exists r, s'.
    + exists (Raise ValueError), s. by repeat split; auto.
Qed.

Lemma for_each_patches_remove_axes gs s :
  ∃ r s', for_each gs patches_remove s = (r, s')
          ∧ (r = Ok () ∨ r = Raise ValueError) ∧ only_axes_differ s s'.
Proof.
  revert s. induction gs as [|g gs IH]; intros s.
  - exists (Ok ()), s. by repeat split; auto.
  - simpl. unfold mbind, M_bind. unfold patches_remove at 1.
    destruct (list_remove g (patches s)) as [l|].
    + destruct (IH (with_patches (λ _, l) s)) as (r & s' & -> & Hr & Hs').
      by exists r, s'.
    + exists (Raise ValueError), s. by repeat split; auto.
Qed.

(** [hide] changes nothing but the axes, and the only exception it lets
    through is the [IndexError] of an empty layer. *)
Lemma hide_axes s n :
  ∃ r s', hide n s = (r, s')
          ∧ (r = Ok () ∨ r = Raise IndexError) ∧ only_axes_differ s s'.
Proof.
  destruct (_graphics s !! n) as [[|g gs]|] eqn:Hn.
  - exists (Raise IndexError), s. rewrite (hide_empty _ _ Hn).
    by repeat split; auto.
  - unfold hide, try_except, graphics_get.
    unfold mbind at 1, M_bind at 1. rewrite Hn, by_class_cons.
    destruct (type (objects s g)).
    + destruct (for_each_lines_remove_axes (g :: gs) s)
        as (r & s' & -> & [->| ->] & Hs'); exists (Ok ()), s'; by auto.
    + destruct (for_each_patches_remove_axes (g :: gs) s)
        as (r & s' & -> & [->| ->] & Hs'); exists (Ok ()), s'; by auto.
    + destruct (for_each_patches_remove_axes (g :: gs) s)
        as (r & s' & -> & [->| ->] & Hs'); exists (Ok ()), s'; by auto.
  - exists (Ok ()), s. rewrite (hide_absent _ _ Hn). by repeat split; auto.
Qed.

(** [_set_graphics] with an explicit style: it returns, or raises the
    [IndexError] of an empty layer it was to replace; it restyles no
    artist and leaves the palette alone. *)
Lemma set_graphics_explicit_frame gs n s :
  ∃ r s', _set_graphics gs n true s = (r, s')
          ∧ (r = Ok () ∨ r = Raise IndexError)
          ∧ objects s' = objects s ∧ same_palette s s'.
Proof.
  unfold _set_graphics.
  unfold mbind at 1, M_bind at 1, get at 1.
  set (key := if truthy n then n else NInt (size (_graphics s))).
  unfold mbind at 1, M_bind at 1, get at 1.
  unfold mbind at 1, M_bind at 1.
  case_bool_decide as Hkey.
  - unfold mbind at 1, M_bind at 1.
    destruct (hide_axes s key) as (r & s1 & -> & [->| ->] & Hgr & Hobj & _ & Hpal).
    + cbn. eexists _, _. split; [done|]. split; [by left|]. done.
    + eexists _, _. split; [done|]. split; [by right|]. done.
  - eexists _, _. split; [done|]. split; [by left|]. done.
Qed.

Lemma py_index_raise {A} (l : list A) (i : Z) (e : exn) :
  py_index l i = Raise e → e = IndexError.
Proof.
  unfold py_index. case_bool_decide; [by intros [= <-]|].
  destruct (l !! _); [done|]. by intros [= <-].
Qed.

Lemma next_color_raise s e s' :
  _next_color_new s = (Raise e, s') → e = IndexError ∨ e = KeyError.
Proof.
  unfold _next_color_new.
  unfold mbind, M_bind, modify, get, lift, mret, M_ret, raise. simpl.
  destruct (bool_decide _); simpl;
    (destruct (py_index _ _) as [entry|e0] eqn:Hidx;
     [destruct (entry !! "color"); [done|intros [= <- _]; by right]
     |intros [= <- _]; left; by apply py_index_raise in Hidx]).
Qed.
End frames.

Section drawing.
Implicit Types (s : plotter) (d : list (list point)) (kwargs : style).

Lemma next_color_frame s :
  ∃ i, (_next_color_new s).2 = with_current_color i s.
Proof.
  unfold _next_color_new.
  unfold mbind, M_bind, modify, get, lift, mret, M_ret, raise. simpl.
  destruct (bool_decide _); simpl;
    (destruct (py_index _ _) as [entry|e0];
     [destruct (entry !! "color")|]); eexists; by destruct s.
Qed.

Lemma has_key_nonempty kwargs :
  is_Some (kwargs !! "facecolor") ∨ is_Some (kwargs !! "fc") → kwargs ≠ ∅.
Proof. intros [[? H]|[? H]] ->; by rewrite lookup_empty in H. Qed.

(** The loop of [_plot_multipolygon] on any polygons: it returns or
    raises [IndexError], and artists that existed before are as they
    were. *)
Lemma multipolygon_loop_frame (data : list (list (list point))) kwargs
    graphics s :
  ∃ r s', multipolygon_loop data kwargs graphics s = (r, s') ∧
          ((∃ gs, r = Ok gs) ∨ r = Raise IndexError) ∧
          (next_ref s ≤ next_ref s')%nat ∧
          ∀ g, (g < next_ref s)%nat → objects s' g = objects s g.
Proof.
  revert graphics s. induction data as [|d data IH]; intros graphics s.
  - exists (Ok graphics), s. split; [done|]. split; [by eauto|]. done.
  - simpl. unfold mbind at 1, M_bind at 1.
    destruct (polygon_path d) as [p|e] eqn:Hp.
    + rewrite (plot_polygon_patch_Ok s d kwargs p Hp).
      set (s1 := with_patches _ _).
      destruct (IH (graphics ++ [next_ref s]) s1) as (r & s' & -> & Hr & Hle & Hold).
      exists r, s'. split; [done|]. split; [done|]. simpl in *.
      split; [lia|]. intros g Hg. rewrite Hold by lia.
      by rewrite fn_lookup_insert_ne by lia.
    + rewrite (plot_polygon_patch_Raise s d kwargs e Hp).
      apply polygon_path_raise in Hp as ->.
      exists (Raise IndexError), s. split; [done|]. split; [by right|]. done.
Qed.
End drawing.



(** X25.  A polygon drawn without any colour takes its fill from the
    palette before its path is built: when the polygon has no ring, or
    an empty ring, the call raises [IndexError] and draws nothing, but
    the session is left as [_next_color] left it, with the cursor moved
    on and the colour used up. *)
Theorem plot_polygon_failure_uses_colour (s s1 : plotter)
    (d : list (list point)) (name c : string) (kwargs : style) :
  kwargs !! "facecolor" = None → kwargs !! "fc" = None →
  d = [] ∨ [] ∈ d →
  _next_color_new s = (Ok c, s1) →
  plot_polygon d "" name kwargs s = (Raise IndexError, s1).
Proof.
  intros Hfacecolor Hfc Hbad Hc. unfold plot_polygon.
  rewrite (bool_decide_eq_false_2 (is_Some _ ∨ is_Some _))
    by (rewrite Hfacecolor, Hfc; intros [[? ?]|[? ?]]; done).
  rewrite (bool_decide_eq_false_2 ("" ≠ "")) by (intros H; by apply H).
  unfold mbind at 1, M_bind at 1. unfold mbind at 1, M_bind at 1.
  rewrite Hc. unfold mret at 1, M_ret at 1.
  unfold mbind at 1, M_bind at 1.
  by rewrite (plot_polygon_patch_Raise _ _ _ _ (polygon_path_bad d Hbad)).
Qed.

Lemma plot_polygon_failure_uses_colour_witness :
  let s := SimpleVectorPlotter [{[ "color" := "b" ]}; {[ "color" := "g" ]}] in
  let d : list (list point) := [[(0, 0); (4, 0); (0, 4)]; []] in
  (∅ : style) !! "facecolor" = None ∧ (∅ : style) !! "fc" = None ∧
  (d = [] ∨ [] ∈ d) ∧
  _next_color_new s = (Ok "b", with_current_color 0 s) ∧
  plot_polygon d "" "lake" ∅ s = (Raise IndexError, with_current_color 0 s).
Proof.
  intros s d.
  assert (d = [] ∨ [] ∈ d) as Hbad by (right; right; left).
  split; [reflexivity|]. split; [reflexivity|]. split; [exact Hbad|].
  split; [reflexivity|].
  apply (plot_polygon_failure_uses_colour s (with_current_color 0 s) d
                                          "lake" "b" ∅);
    [reflexivity | reflexivity | exact Hbad | reflexivity].
Defined.

(** X26.  A multipolygon drawn without any colour and without a name
    takes one colour from the palette for all its polygons: every patch
    is filled with that colour, the cursor moves on once, and the
    patches are filed, in order, under the number of layers the registry
    held.  A multipolygon without polygons is filed as a layer without
    primitives. *)
Theorem plot_multipolygon_one_colour (s s1 : plotter)
    (data : list (list (list point))) (c : string) (kwargs : style) :
  kwargs !! "facecolor" = None → kwargs !! "fc" = None →
  Forall (λ d, d ≠ [] ∧ Forall (λ r, r ≠ []) d) data →
  _next_color_new s = (Ok c, s1) →
  _graphics s1 !! NInt (size (_graphics s1)) = None →
  ∃ s',
    plot_multipolygon data "" "" kwargs s = (Ok (), s') ∧
    _graphics s' !! NInt (size (_graphics s1))
      = Some (seq (next_ref s1) (length data)) ∧
    patches s' = patches s1 ++ seq (next_ref s1) (length data) ∧
    same_palette s1 s' ∧
    ∀ r, r ∈ seq (next_ref s1) (length data) →
         artist_style (objects s' r) = <["fc" := c]> kwargs.
Proof.
  intros Hfacecolor Hfc Hdata Hc Hfresh. unfold plot_multipolygon.
  rewrite (bool_decide_eq_false_2 (is_Some _ ∨ is_Some _))
    by (rewrite Hfacecolor, Hfc; intros [[? ?]|[? ?]]; done).
  rewrite (bool_decide_eq_false_2 ("" ≠ "")) by (intros H; by apply H).
  unfold mbind at 1, M_bind at 1. unfold mbind at 1, M_bind at 1.
  rewrite Hc. unfold mret at 1, M_ret at 1.
  unfold mbind at 1, M_bind at 1. unfold _plot_multipolygon.
  destruct (multipolygon_loop_Ok data (<["fc" := c]> kwargs) [] s1 Hdata)
    as (s2 & Hrun & Hpatches & _ & Hlines & Hgr & Hcol & Hcur & Hold & Hnew).
  rewrite Hrun. simpl app.
  rewrite (set_graphics_absent s2 (NStr "")); simpl truthy; cbv iota;
    rewrite Hgr; [|done].
  eexists. split; [done|]. simpl.
  split; [by rewrite Hgr, lookup_insert_eq|].
  split; [done|]. split; [done|].
  intros r Hr%elem_of_seq. apply Hnew. lia.
Qed.

Lemma plot_multipolygon_one_colour_witness :
  let s := SimpleVectorPlotter [{[ "color" := "b" ]}; {[ "color" := "g" ]}] in
  let s1 := with_current_color 0 s in
  let data : list (list (list point)) :=
    [[[(0, 0); (4, 0); (0, 4)]]; [[(5, 5); (6, 5); (5, 6)]]] in
  (∅ : style) !! "facecolor" = None ∧ (∅ : style) !! "fc" = None ∧
  Forall (λ d : list (list point), d ≠ [] ∧ Forall (λ r, r ≠ []) d) data ∧
  _next_color_new s = (Ok "b", s1) ∧
  _graphics s1 !! NInt (size (_graphics s1)) = None ∧
  ∃ s',
    plot_multipolygon data "" "" ∅ s = (Ok (), s') ∧
    _graphics s' !! NInt (size (_graphics s1))
      = Some (seq (next_ref s1) (length data)) ∧
    patches s' = patches s1 ++ seq (next_ref s1) (length data) ∧
    same_palette s1 s' ∧
    ∀ r, r ∈ seq (next_ref s1) (length data) →
         artist_style (objects s' r) = <["fc" := "b"]> ∅.
Proof.
  intros s s1 data.
  assert (Forall (λ d : list (list point), d ≠ [] ∧ Forall (λ r, r ≠ []) d)
                 data) as Hdata.
  { repeat constructor; discriminate. }
  split; [reflexivity|]. split; [reflexivity|]. split; [exact Hdata|].
  split; [reflexivity|]. split; [reflexivity|].
  apply (plot_multipolygon_one_colour s s1 data "b" ∅);
    [reflexivity | reflexivity | exact Hdata | reflexivity | reflexivity].
Defined.

(** X27.  [plot_geom] on a polygon or multipolygon geometry hands
    [_set_graphics] a style flag that is always true, because the flag
    is read from the keywords after the face colour has been put into
    them.  So a polygon layer drawn through [plot_geom] is never
    restyled from the layer it replaces: no artist that existed before
    the call is changed, and the call returns or raises [IndexError] or
    [KeyError], never the [AttributeError] of [_same_type]. *)
Theorem plot_geom_never_restyles (s : plotter) (geom : polygon_geometry)
    (symbol name : string) (kwargs : style) :
  ∃ r s',
    plot_geom geom symbol name kwargs s = (r, s') ∧
    (r = Ok () ∨ r = Raise IndexError ∨ r = Raise KeyError) ∧
    ∀ g, (g < next_ref s)%nat → objects s' g = objects s g.
Proof.
  unfold plot_geom. unfold mbind at 1, M_bind at 1.
  (* the keywords after the face colour has been settled *)
  assert (∃ rk sk,
    (if negb (_kwargs_has_color kwargs)
     then (if bool_decide (symbol ≠ "") then mret symbol
           else _next_color_new) ≫= λ fc, mret (<["fc" := fc]> kwargs)
     else mret kwargs) s = (rk, sk) ∧
    objects sk = objects s ∧ next_ref sk = next_ref s ∧
    match rk with
    | Ok kw => is_Some (kw !! "facecolor") ∨ is_Some (kw !! "fc")
    | Raise e => e = IndexError ∨ e = KeyError
    end) as (rk & sk & -> & Hobjk & Hnextk & Hrk).
  { unfold _kwargs_has_color. case_bool_decide as Hkey.
    - exists (Ok kwargs), s. split; [reflexivity|]. do 2 (split; [done|]).
      tauto.
    - cbn [negb]. unfold mbind, M_bind. case_bool_decide.
      + exists (Ok (<["fc" := symbol]> kwargs)), s.
        split; [reflexivity|]. do 2 (split; [done|]).
        right. by rewrite lookup_insert_eq.
      + destruct (next_color_frame s) as [i Hi].
        destruct (_next_color_new s) as [[c|e] sk] eqn:Hc; simpl in Hi; subst sk.
        * eexists _, _. split; [reflexivity|]. do 2 (split; [done|]). right.
          by rewrite lookup_insert_eq.
        * eexists _, _. split; [reflexivity|]. do 2 (split; [done|]).
          by apply next_color_raise in Hc. }
  destruct rk as [kw|e].
  2:{ exists (Raise e), sk. split; [done|].
      split; [destruct Hrk as [->| ->]; auto|]. intros g _. by rewrite Hobjk. }
  rewrite (bool_decide_eq_true_2 (symbol ≠ "" ∨ kw ≠ ∅))
    by (right; by apply has_key_nonempty).
  unfold mbind at 1, M_bind at 1.
  (* the primitives *)
  assert (∃ rg sg,
    _plot_geom geom symbol kw sk = (rg, sg) ∧
    ((∃ gs, rg = Ok gs) ∨ rg = Raise IndexError) ∧
    ∀ g, (g < next_ref sk)%nat → objects sg g = objects sk g)
    as (rg & sg & -> & Hrg & Hobjg).
  { destruct geom as [rings|polygons]; simpl.
    - destruct (polygon_path (_get_polygon_coords rings)) as [p|e] eqn:Hp.
      + rewrite (plot_polygon_patch_Ok _ _ _ _ Hp). eexists _, _.
        split; [done|]. split; [by eauto|]. intros g Hg. simpl.
        by rewrite fn_lookup_insert_ne by lia.
      + rewrite (plot_polygon_patch_Raise _ _ _ _ Hp).
        apply polygon_path_raise in Hp as ->. eexists _, _.
        split; [done|]. split; [by right|done].
    - unfold _plot_multipolygon.
      destruct (multipolygon_loop_frame (_get_multipolygon_coords polygons)
                  kw [] sk) as (r & s' & -> & Hr & _ & Hold).
      by exists r, s'. }
  destruct Hrg as [[gs ->]| ->].
  - destruct (set_graphics_explicit_frame gs (NStr name) sg)
      as (r & s' & -> & Hr & Hobj & _).
    exists r, s'. split; [done|]. split; [destruct Hr as [->| ->]; auto|].
    intros g Hg. rewrite Hobj, Hobjg by lia. by rewrite Hobjk.
  - exists (Raise IndexError), sg. split; [done|]. split; [auto|].
    intros g Hg. rewrite Hobjg by lia. by rewrite Hobjk.
Qed.

(** X28.  [clear] empties the registry and the axes and keeps the
    palette where it is: colours handed out after a [clear] go on from
    the cursor, they do not start again.  After it every name is
    unknown, so [hide], [show] and [remove] of any name do nothing. *)
Theorem clear_forgets_layers (s : plotter) :
  ∃ s', clear s = (Ok (), s') ∧
        _graphics s' = ∅ ∧ lines s' = [] ∧ patches s' = [] ∧
        same_palette s s' ∧
        ∀ n, hide n s' = (Ok (), s') ∧ show n s' = (Ok (), s')
             ∧ remove n s' = (Ok (), s').
Proof.
  eexists. split; [reflexivity|]. simpl. do 4 (split; [done|]).
  intros n. split; [|split].
  - apply hide_absent. apply lookup_empty.
  - apply show_absent. apply lookup_empty.
  - apply remove_absent. apply lookup_empty.
Qed.

(** ** Rings of float coordinates *)

(** X29.  With float coordinates [_order_vertices] is not idempotent
    even on a ring whose total is not zero.  The ring
    [(0.5, 1.5), (3.5, 10.5), (1.6, 4.8), (0.2, 0.6)] has total [2^-53],
    so with the flag set it is reversed and closed; the total of the
    result is again positive ([1.4375 * 2^-49]), so a second call with
    the flag set reverses it again. *)
Theorem order_vertices_float_not_idempotent :
  Float64.shoelace_total Float64.sample_ring = Ok 0x1p-53%float ∧
  Float64._order_vertices Float64.sample_ring true
    = Ok Float64.sample_ring_ordered ∧
  Float64.shoelace_total Float64.sample_ring_ordered = Ok 0x1.7p-49%float ∧
  Float64._order_vertices Float64.sample_ring_ordered true
    = Ok Float64.sample_ring_ordered_twice ∧
  Float64.sample_ring_ordered_twice ≠ Float64.sample_ring_ordered.
Proof.
  repeat split; [vm_compute; reflexivity..|].
  intros H.
  apply (f_equal (λ l : list Float64.point,
                    match l with
                    | _ :: (x, _) :: _ => (x <? 1)%float
                    | _ => false
                    end)) in H.
  vm_compute in H. discriminate.
Qed.

(** X30.  With float coordinates listing a ring backwards need not
    negate the total of [_clockwise]: the ring
    [(0, 2^53), (-1, 2^53), (1, 0), (0, 1)] has total -1, the ring
    listed backwards has total 0, and [_clockwise] answers [False] on
    both. *)
Theorem clockwise_float_reverse :
  Float64.shoelace_total Float64.wide_ring = Ok (-1)%float ∧
  Float64.shoelace_total (reverse Float64.wide_ring) = Ok 0%float ∧
  Float64._clockwise Float64.wide_ring = Ok false ∧
  Float64._clockwise (reverse Float64.wide_ring) = Ok false.
Proof. repeat split; vm_compute; reflexivity. Qed.
